(** * RVM-Status: the [status] application (models, serializers, views)

    A shallow embedding of the Django application under [src/status/]:
    the [RVM] model ([models.py]), [RVMSerializer] ([serializers.py]),
    [RVMFilter] and [RVMViewSet] ([views.py]).  The application is a set
    of declarations interpreted by Django, Django REST framework (DRF)
    and django-filter; each declaration is embedded together with the
    part of the framework that gives it its meaning, and the comment on
    each definition names the framework routine it follows.

    Conventions.
    - Text is [string]; a character stands for the Unicode code point of
      the same number, so the model covers text over U+0000..U+00FF.
    - An instant (a [DateTimeField] value, [timezone.now()]) is an
      integer number of microseconds since the epoch.
    - The database table is a list of rows in insertion order together
      with the value of its primary-key sequence.
    - A handler is a state transformer over [World]: the database and
      the clock, whose readings are counted. *)

From Stdlib Require Import ZArith List String Ascii Bool Lia Sorted Permutation.
Import ListNotations.
Open Scope string_scope.
Open Scope Z_scope.

(* ================================================================== *)
(** ** Text: the string operations the framework applies *)

Module Text.

Definition code (c : ascii) : nat := nat_of_ascii c.

(** Python's [str.isspace] on the code points below 256:
    TAB..CR, FS..US, SPACE, NEL and NBSP. *)
Definition isspace (c : ascii) : bool :=
  let n := code c in
  ((9 <=? n) && (n <=? 13) || (28 <=? n) && (n <=? 32)
   || (n =? 133) || (n =? 160))%nat.

Fixpoint lstrip (s : string) : string :=
  match s with
  | EmptyString => EmptyString
  | String c s' => if isspace c then lstrip s' else s
  end.

Fixpoint rstrip (s : string) : string :=
  match s with
  | EmptyString => EmptyString
  | String c s' =>
      match rstrip s' with
      | EmptyString => if isspace c then EmptyString else String c EmptyString
      | t => String c t
      end
  end.

(** [str.strip()] with no argument. *)
Definition strip (s : string) : string := rstrip (lstrip s).

(** Case folding of the letters A..Z, the folding SQLite's [LIKE]
    applies. *)
Definition lower_char (c : ascii) : ascii :=
  let n := code c in
  if ((65 <=? n) && (n <=? 90))%nat then ascii_of_nat (n + 32) else c.

Fixpoint lower (s : string) : string :=
  match s with
  | EmptyString => EmptyString
  | String c s' => String (lower_char c) (lower s')
  end.

Fixpoint startswith (p t : string) : bool :=
  match p, t with
  | EmptyString, _ => true
  | String _ _, EmptyString => false
  | String a p', String b t' => Ascii.eqb a b && startswith p' t'
  end.

(** [p in t]: [p] occurs in [t] as a contiguous substring. *)
Fixpoint contains (p t : string) : bool :=
  startswith p t
  || match t with
     | EmptyString => false
     | String _ t' => contains p t'
     end.

(** ["\x00" in s] *)
Fixpoint has_nul (s : string) : bool :=
  match s with
  | EmptyString => false
  | String c s' => Ascii.eqb c zero || has_nul s'
  end.

(** What "[t] contains [p] as a substring, compared case-insensitively"
    says: a part of [t] is [p] up to the case of its letters. *)
Definition substring_ci (p t : string) : Prop :=
  exists pre mid post, t = pre ++ mid ++ post /\ lower mid = lower p.

End Text.

(* ================================================================== *)
(** ** models.py *)

(** Primitive values: what a request body carries for a key and what a
    serialized record holds for a field.  [PDateTime t] stands for the
    ISO-8601 rendering of the instant [t]. *)
Inductive prim :=
| PNull
| PBool (b : bool)
| PInt (n : Z)
| PStr (s : string)
| PDateTime (t : Z).

(** [class RVM(models.Model)]: the implicit [id] primary key and the
    four declared columns. *)
Record RVM := mkRVM {
  id : Z;
  name : string;
  location : string;
  is_active : bool;
  last_usage : option Z          (* null=True: None is NULL *)
}.

Inductive field := F_id | F_name | F_location | F_is_active | F_last_usage.

Definition field_name (f : field) : string :=
  match f with
  | F_id => "id"
  | F_name => "name"
  | F_location => "location"
  | F_is_active => "is_active"
  | F_last_usage => "last_usage"
  end.

(** [Field.get_default()] for each column: the declared [default], and
    for [name], a [CharField] without one, the empty string. *)
Definition name_default : string := "".
Definition location_default : string := "Cairo".
Definition is_active_default : bool := true.
Definition last_usage_default : option Z := None.

(** [getattr(instance, f)] as a primitive value. *)
Definition getattr (o : RVM) (f : field) : prim :=
  match f with
  | F_id => PInt (id o)
  | F_name => PStr (name o)
  | F_location => PStr (location o)
  | F_is_active => PBool (is_active o)
  | F_last_usage =>
      match last_usage o with
      | Some t => PDateTime t
      | None => PNull
      end
  end.

(** [setattr(instance, f, v)] for a validated value; a validated value
    has the type of its field, the other combinations do not arise. *)
Definition setattr (o : RVM) (f : field) (v : prim) : RVM :=
  match f, v with
  | F_id, PInt k => mkRVM k (name o) (location o) (is_active o) (last_usage o)
  | F_name, PStr s => mkRVM (id o) s (location o) (is_active o) (last_usage o)
  | F_location, PStr s => mkRVM (id o) (name o) s (is_active o) (last_usage o)
  | F_is_active, PBool b => mkRVM (id o) (name o) (location o) b (last_usage o)
  | F_last_usage, PDateTime t =>
      mkRVM (id o) (name o) (location o) (is_active o) (Some t)
  | F_last_usage, PNull =>
      mkRVM (id o) (name o) (location o) (is_active o) None
  | _, _ => o
  end.

(** The constructor [RVM] applied to keyword arguments, with primary
    key [pk]: every column at its default, then the keyword arguments. *)
Definition RVM_init (pk : Z) (kwargs : list (field * prim)) : RVM :=
  fold_left (fun o kv => setattr o (fst kv) (snd kv)) kwargs
    (mkRVM pk name_default location_default is_active_default
       last_usage_default).

(** [def __str__(self)]: the f-string [{self.name} ({self.location})]. *)
Definition __str__ (self : RVM) : string :=
  (name self ++ " (" ++ location self ++ ")")%string.

(** [class Meta: ordering = ("-last_usage",)] *)
Inductive direction := Ascending | Descending.

Definition Meta_ordering : direction * (RVM -> option Z) :=
  (Descending, last_usage).

(* ================================================================== *)
(** ** The database, the clock and Django's QuerySet *)

(** The table of [RVM] rows, in insertion order, and the last value its
    primary-key sequence handed out. *)
Record Store := mkStore {
  table : list RVM;
  seq : Z
}.

(** What a request handler can touch: the database and the clock.
    [clock w n] is what the [n]-th reading of the clock returns and
    [reads w] counts the readings made so far. *)
Record World := mkWorld {
  db : Store;
  clock : nat -> Z;
  reads : nat
}.

Definition M (A : Type) : Type := World -> A * World.

Definition ret {A : Type} (a : A) : M A := fun w => (a, w).

Definition bind {A B : Type} (m : M A) (k : A -> M B) : M B :=
  fun w => let (a, w') := m w in k a w'.

Notation "x <- m ;; k" := (bind m (fun x => k))
  (at level 61, m at next level, right associativity).

Definition get_db : M Store := fun w => (db w, w).

Definition put_db (st : Store) : M unit :=
  fun w => (tt, mkWorld st (clock w) (reads w)).

(** [django.utils.timezone.now()] *)
Definition timezone_now : M Z :=
  fun w => (clock w (reads w), mkWorld (db w) (clock w) (S (reads w))).

(** [datetime.timedelta(hours=h)] in microseconds. *)
Definition timedelta_hours (h : Z) : Z := h * 3600 * 1000000.

(** Field lookups, as the conditions they put in the [WHERE] clause.  A
    comparison with NULL is not true. *)
Definition lookup_exact (col v : string) : bool := String.eqb col v.

Definition lookup_icontains (col v : string) : bool :=
  Text.contains (Text.lower v) (Text.lower col).

Definition lookup_isnull (col : option Z) (v : bool) : bool :=
  Bool.eqb (match col with None => true | Some _ => false end) v.

Definition lookup_gte (col : option Z) (v : Z) : bool :=
  match col with
  | Some t => v <=? t
  | None => false
  end.

(** A [QuerySet] is a query, not its rows: the accumulated condition
    and the ordering; it meets the table when it is evaluated. *)
Record QuerySet := mkQuerySet {
  qs_where : RVM -> bool;
  qs_ordering : direction * (RVM -> option Z)
}.

(** [RVM.objects]: no condition, the ordering of [Meta]. *)
Definition objects : QuerySet := mkQuerySet (fun _ => true) Meta_ordering.

(** [queryset.filter(cond)] *)
Definition qs_filter (cond : RVM -> bool) (qs : QuerySet) : QuerySet :=
  mkQuerySet (fun r => qs_where qs r && cond r) (qs_ordering qs).

(** Modelled from the spec: where [ORDER BY] places NULL is the choice of
    the database backend, which the project settings (not under [src/])
    name.  Spec, section 3: listing order is by [last_usage] descending
    "with records having no usage timestamp sorted last", which is the
    order of SQLite, Django's default backend: NULL is below every
    value. *)
Definition null_le (a b : option Z) : bool :=
  match a, b with
  | None, _ => true
  | Some _, None => false
  | Some x, Some y => x <=? y
  end.

(** [precedes o a b]: under the ordering [o], row [a] may stand before
    row [b]. *)
Definition precedes (o : direction * (RVM -> option Z)) (a b : RVM) : bool :=
  match fst o with
  | Ascending => null_le (snd o a) (snd o b)
  | Descending => null_le (snd o b) (snd o a)
  end.

(** [ORDER BY]: rows with equal keys keep their table order (spec,
    section 3: "treat as stable w.r.t. insertion"). *)
Fixpoint insert_row (o : direction * (RVM -> option Z)) (r : RVM)
  (l : list RVM) : list RVM :=
  match l with
  | [] => [r]
  | y :: l' => if precedes o r y then r :: l else y :: insert_row o r l'
  end.

Fixpoint order_by (o : direction * (RVM -> option Z)) (l : list RVM)
  : list RVM :=
  match l with
  | [] => []
  | r :: l' => insert_row o r (order_by o l')
  end.

(** The [SELECT] a queryset stands for, run on a table. *)
Definition select (qs : QuerySet) (st : Store) : list RVM :=
  order_by (qs_ordering qs) (filter (qs_where qs) (table st)).

(** Evaluating a queryset (iterating over it). *)
Definition evaluate (qs : QuerySet) : M (list RVM) :=
  st <- get_db ;; ret (select qs st).

(** [queryset.get(pk=pk)] *)
Inductive get_result :=
| Got (o : RVM)
| DoesNotExist
| MultipleObjectsReturned.

Definition qs_get (pk : Z) (qs : QuerySet) : M get_result :=
  rows <- evaluate (qs_filter (fun r => id r =? pk) qs) ;;
  ret match rows with
      | [] => DoesNotExist
      | [o] => Got o
      | _ :: _ :: _ => MultipleObjectsReturned
      end.

(** [RVM.objects.create] with keyword arguments: build the instance and [INSERT] it;
    the database assigns the next value of the sequence as its [id]. *)
Definition objects_create (kwargs : list (field * prim)) : M RVM :=
  st <- get_db ;;
  let pk := seq st + 1 in
  let obj := RVM_init pk kwargs in
  _ <- put_db (mkStore (table st ++ [obj]) pk) ;;
  ret obj.

(** [instance.save()] of an instance read from the table: an [UPDATE]
    of every column of the row with its [id]. *)
Definition save (obj : RVM) : M unit :=
  st <- get_db ;;
  put_db (mkStore (map (fun r => if id r =? id obj then obj else r) (table st))
            (seq st)).

(** [instance.delete()]: [DELETE] of the row with its [id]. *)
Definition delete (obj : RVM) : M unit :=
  st <- get_db ;;
  put_db (mkStore (filter (fun r => negb (id r =? id obj)) (table st))
            (seq st)).

(** The states the database can be in: [id] is a primary key, handed out
    by the sequence. *)
Definition wf_store (st : Store) : Prop :=
  NoDup (map id (table st)) /\ Forall (fun r => id r <= seq st) (table st).

(* ================================================================== *)
(** ** serializers.py *)

(** A dict with string keys: a request body (a JSON object) or a
    serialized record, as its items. *)
Definition data : Type := list (string * prim).

Fixpoint get_value (d : data) (key : string) : option prim :=
  match d with
  | [] => None
  | (k, v) :: d' => if String.eqb k key then Some v else get_value d' key
  end.

(** What DRF's [field.run_validation(primitive_value)] comes to for one
    writable field: the field is skipped ([SkipField]), yields a
    validated value, or fails with a message. *)
Inductive field_result :=
| SkipField
| Validated (v : prim)
| ValidationError (detail : string).

Definition field_eqb (a b : field) : bool :=
  match a, b with
  | F_id, F_id | F_name, F_name | F_location, F_location
  | F_is_active, F_is_active | F_last_usage, F_last_usage => true
  | _, _ => false
  end.

(** [class Meta] of [RVMSerializer]:
    [fields = ["id","name","location","is_active","last_usage"]] and
    [read_only_fields = fields]. *)
Definition Meta_fields : list field :=
  [F_id; F_name; F_location; F_is_active; F_last_usage].

Definition Meta_read_only_fields : list field := Meta_fields.

Definition read_only (f : field) : bool :=
  existsb (field_eqb f) Meta_read_only_fields.

(** [Serializer._writable_fields]: the fields that are not read-only. *)
Definition _writable_fields : list field :=
  filter (fun f => negb (read_only f)) Meta_fields.

(** [Serializer.to_representation(instance)]: one item per field of
    [Meta.fields], in that order. *)
Definition to_representation (o : RVM) : data :=
  map (fun f => (field_name f, getattr o f)) Meta_fields.

(* ================================================================== *)
(** ** views.py: RVMFilter *)

(** The query parameters of a request that [RVMFilter] reads:
    [location] and [loc] as the text received, [recent] as the boolean
    its field recognises ([None]: absent, or not a boolean). *)
Record query := mkQuery {
  q_location : option string;
  q_loc : option string;
  q_recent : option bool
}.

Definition no_query : query := mkQuery None None None.

(** [forms.CharField(required=False).clean(value)], the form field of a
    [CharFilter]: the text is stripped, and unless that leaves it empty
    it must hold no null character.  [None] is a validation error. *)
Definition CharField_clean (raw : option string) : option string :=
  match raw with
  | None => Some ""
  | Some v =>
      let v' := Text.strip v in
      if Text.has_nul v' then None else Some v'
  end.

(** [Filter.filter(qs, value)] of a [CharFilter] on [location]: an empty
    value does not filter. *)
Definition CharFilter_filter (lookup : string -> string -> bool)
  (qs : QuerySet) (value : string) : QuerySet :=
  match value with
  | EmptyString => qs
  | _ => qs_filter (fun r => lookup (location r) value) qs
  end.

(** The filter django-filter generates for ["location"] in
    [Meta.fields]: an exact match. *)
Definition location_filter : QuerySet -> string -> QuerySet :=
  CharFilter_filter lookup_exact.

(** [loc = CharFilter(field_name="location", lookup_expr="icontains")] *)
Definition loc_filter : QuerySet -> string -> QuerySet :=
  CharFilter_filter lookup_icontains.

(** [def filter_recent(self, queryset, name, value)] *)
Definition filter_recent (queryset : QuerySet) (value : bool) : M QuerySet :=
  if value then
    now <- timezone_now ;;
    let cutoff := now - timedelta_hours 24 in
    ret (qs_filter
           (fun r => lookup_isnull (last_usage r) false
                     && lookup_gte (last_usage r) cutoff)
           queryset)
  else ret queryset.

(** [recent = BooleanFilter(method="filter_recent")]: the method is
    called unless the value is empty ([None]). *)
Definition recent_filter (qs : QuerySet) (value : option bool) : M QuerySet :=
  match value with
  | None => ret qs
  | Some v => filter_recent qs v
  end.

Definition null_characters : string := "Null characters are not allowed.".

(** The errors of the filter form, per parameter. *)
Definition filterset_errors (q : query) : list (string * string) :=
  (match CharField_clean (q_location q) with
   | None => [("location", null_characters)]
   | Some _ => []
   end ++
   match CharField_clean (q_loc q) with
   | None => [("loc", null_characters)]
   | Some _ => []
   end)%list.

(** [DjangoFilterBackend.filter_queryset]: an invalid filter form is a
    validation error, otherwise [FilterSet.filter_queryset] applies the
    filters in the order of [Meta.fields = ["location", "loc", "recent"]]. *)
Definition RVMFilter_filter_queryset (q : query) (queryset : QuerySet)
  : M (list (string * string) + QuerySet) :=
  match CharField_clean (q_location q), CharField_clean (q_loc q) with
  | Some v_location, Some v_loc =>
      let qs1 := location_filter queryset v_location in
      let qs2 := loc_filter qs1 v_loc in
      qs3 <- recent_filter qs2 (q_recent q) ;;
      ret (inr qs3)
  | _, _ => ret (inl (filterset_errors q))
  end.

(* ================================================================== *)
(** ** views.py: RVMViewSet *)

Inductive response :=
| Response_200_list (results : list data)
| Response_200 (record : data)
| Response_201 (record : data)
| Response_204
| Response_400 (errors : list (string * string))
| Response_404
| Response_500.

(** Modelled from the spec: the project settings are not under [src/];
    DRF takes a view's filter backends and its paginator from them.
    Spec, section 6: the list is "filterable via [loc], [recent] query
    params", so django-filter's backend is installed; section 4.3: the
    list body is "an array of serialized records", so there is no
    paginator. *)
Inductive filter_backend := DjangoFilterBackend.

Definition DEFAULT_FILTER_BACKENDS : list filter_backend :=
  [DjangoFilterBackend].

(** [queryset = RVM.objects.filter(is_active=True)] *)
Definition queryset : QuerySet :=
  qs_filter (fun r => Bool.eqb (is_active r) true) objects.

(** [GenericAPIView.filter_queryset]: every backend in turn, on the
    query parameters of the request. *)
Fixpoint filter_queryset (backends : list filter_backend) (q : query)
  (qs : QuerySet) : M (list (string * string) + QuerySet) :=
  match backends with
  | [] => ret (inr qs)
  | DjangoFilterBackend :: backends' =>
      r <- RVMFilter_filter_queryset q qs ;;
      match r with
      | inl errors => ret (inl errors)
      | inr qs' => filter_queryset backends' q qs'
      end
  end.

(** [GenericAPIView.get_object]: the filtered queryset, then
    [get_object_or_404(queryset, pk=pk)]. *)
Definition get_object (q : query) (pk : Z) : M (response + RVM) :=
  r <- filter_queryset DEFAULT_FILTER_BACKENDS q queryset ;;
  match r with
  | inl errors => ret (inl (Response_400 errors))
  | inr qs =>
      g <- qs_get pk qs ;;
      ret match g with
          | Got o => inr o
          | DoesNotExist => inl Response_404
          | MultipleObjectsReturned => inl Response_500
          end
  end.

(** [ListModelMixin.list]: [GET /rvms/] *)
Definition action_list (q : query) : M response :=
  r <- filter_queryset DEFAULT_FILTER_BACKENDS q queryset ;;
  match r with
  | inl errors => ret (Response_400 errors)
  | inr qs =>
      rows <- evaluate qs ;;
      ret (Response_200_list (map to_representation rows))
  end.

(** [RetrieveModelMixin.retrieve]: [GET /rvms/{pk}/] *)
Definition action_retrieve (q : query) (pk : Z) : M response :=
  r <- get_object q pk ;;
  match r with
  | inl resp => ret resp
  | inr instance => ret (Response_200 (to_representation instance))
  end.

(** [DestroyModelMixin.destroy]: [DELETE /rvms/{pk}/] *)
Definition action_destroy (q : query) (pk : Z) : M response :=
  r <- get_object q pk ;;
  match r with
  | inl resp => ret resp
  | inr instance => _ <- delete instance ;; ret Response_204
  end.

Section Writes.

(** The validation DRF runs on a writable field of the serializer
    ([partial], the field, the value the body has for it).  It is left
    open: what follows holds for every such validation. *)
Variable run_validation : bool -> field -> option prim -> field_result.

(** The loop of [Serializer.to_internal_value] over the fields [fs]:
    the errors and the validated items. *)
Fixpoint validate_fields (partial : bool) (fs : list field) (d : data)
  : list (string * string) * list (field * prim) :=
  match fs with
  | [] => ([], [])
  | f :: fs' =>
      let (errors, validated) := validate_fields partial fs' d in
      match run_validation partial f (get_value d (field_name f)) with
      | SkipField => (errors, validated)
      | Validated v => (errors, (f, v) :: validated)
      | ValidationError detail => ((field_name f, detail) :: errors, validated)
      end
  end.

(** [Serializer.to_internal_value(data)]: only the writable fields are
    read from the body. *)
Definition to_internal_value (partial : bool) (d : data)
  : list (string * string) + list (field * prim) :=
  let (errors, validated) := validate_fields partial _writable_fields d in
  match errors with
  | [] => inr validated
  | _ :: _ => inl errors
  end.

(** [ModelSerializer.create(validated_data)] *)
Definition serializer_create (validated_data : list (field * prim)) : M RVM :=
  objects_create validated_data.

(** [ModelSerializer.update(instance, validated_data)]: assign every
    validated item, then save. *)
Definition serializer_update (instance : RVM)
  (validated_data : list (field * prim)) : M RVM :=
  let instance' :=
    fold_left (fun o kv => setattr o (fst kv) (snd kv)) validated_data
      instance in
  _ <- save instance' ;;
  ret instance'.

(** [CreateModelMixin.create]: [POST /rvms/] *)
Definition action_create (body : data) : M response :=
  match to_internal_value false body with
  | inl errors => ret (Response_400 errors)
  | inr validated_data =>
      instance <- serializer_create validated_data ;;
      ret (Response_201 (to_representation instance))
  end.

(** [UpdateModelMixin.update]: [PUT /rvms/{pk}/], and with
    [partial = true] [partial_update]: [PATCH /rvms/{pk}/]. *)
Definition action_update (partial : bool) (q : query) (pk : Z) (body : data)
  : M response :=
  r <- get_object q pk ;;
  match r with
  | inl resp => ret resp
  | inr instance =>
      match to_internal_value partial body with
      | inl errors => ret (Response_400 errors)
      | inr validated_data =>
          instance' <- serializer_update instance validated_data ;;
          ret (Response_200 (to_representation instance'))
      end
  end.

End Writes.

(* ================================================================== *)
(** ** urls.py *)

(** The routes [router.register("rvms", RVMViewSet, basename="rvms")]
    generates, as the requests they accept. *)
Inductive request :=
| GET_rvms (q : query)
| POST_rvms (body : data)
| GET_rvm (q : query) (pk : Z)
| PUT_rvm (q : query) (pk : Z) (body : data)
| PATCH_rvm (q : query) (pk : Z) (body : data)
| DELETE_rvm (q : query) (pk : Z).

Definition urlpatterns
  (run_validation : bool -> field -> option prim -> field_result)
  (req : request) : M response :=
  match req with
  | GET_rvms q => action_list q
  | POST_rvms body => action_create run_validation body
  | GET_rvm q pk => action_retrieve q pk
  | PUT_rvm q pk body => action_update run_validation false q pk body
  | PATCH_rvm q pk body => action_update run_validation true q pk body
  | DELETE_rvm q pk => action_destroy q pk
  end.

(* ================================================================== *)
(** ** Vocabulary of the statements *)

(** The filter form of the request is valid. *)
Definition valid_query (q : query) : Prop := filterset_errors q = [].

(** The world after one more reading of the clock. *)
Definition tick (w : World) : World :=
  mkWorld (db w) (clock w) (S (reads w)).

(** The predicate of each filter on a row: [location] (exact) and [loc]
    (substring) for a cleaned value, [recent] for its value and the
    time [now]. *)
Definition admits_location (v : string) (r : RVM) : bool :=
  match v with
  | EmptyString => true
  | _ => lookup_exact (location r) v
  end.

Definition admits_loc (v : string) (r : RVM) : bool :=
  match v with
  | EmptyString => true
  | _ => lookup_icontains (location r) v
  end.

Definition used_since (cutoff : Z) (r : RVM) : bool :=
  match last_usage r with
  | Some t => cutoff <=? t
  | None => false
  end.

Definition admits_recent (value : option bool) (now : Z) (r : RVM) : bool :=
  match value with
  | Some true => used_since (now - timedelta_hours 24) r
  | _ => true
  end.

(** The rows a table shows for a condition, in listing order. *)
Definition rows_where (cond : RVM -> bool) (st : Store) : list RVM :=
  order_by Meta_ordering (filter cond (table st)).

(** The order of a listing: [a] may be listed before [b]. *)
Definition before (o : direction * (RVM -> option Z)) (a b : RVM) : Prop :=
  precedes o a b = true.

(** The record a create stores under the identifier [pk]. *)
Definition blank_rvm (pk : Z) : RVM := mkRVM pk "" "Cairo" true None.

(** The world after [st] replaces the database. *)
Definition with_db (st : Store) (w : World) : World :=
  mkWorld st (clock w) (reads w).

(** The order of a listing by [last_usage]: descending, nulls last. *)
Definition desc_nulls_last (a b : option Z) : Prop :=
  match a, b with
  | Some x, Some y => y <= x
  | Some _, None => True
  | None, Some _ => False
  | None, None => True
  end.

(** The [last_usage] a serialized record shows. *)
Definition shown_last_usage (d : data) : option Z :=
  match get_value d "last_usage" with
  | Some (PDateTime t) => Some t
  | _ => None
  end.

(** A validation of the usual kind, for the examples: a value is taken
    as it is, a missing one is an error unless the update is partial. *)
Definition required_validation (partial : bool) (f : field)
  (v : option prim) : field_result :=
  match v with
  | Some x => Validated x
  | None => if partial then SkipField
            else ValidationError "This field is required."
  end.

(** A database for the examples: three active machines, one inactive. *)
Definition example_rows : list RVM :=
  [mkRVM 1 "RVM-1" "Cairo" true None;
   mkRVM 2 "RVM-2" "Alexandria" true (Some 90000000000);
   mkRVM 3 "RVM-3" "Giza" false (Some 95000000000);
   mkRVM 4 "RVM-4" "New Cairo" true (Some 10000000000)].

Definition example_world : World :=
  mkWorld (mkStore example_rows 4) (fun n => 100000000000 + Z.of_nat n) 0.

(** Serving a sequence of requests, one after the other. *)
Fixpoint serve (run_validation : bool -> field -> option prim -> field_result)
  (reqs : list request) (w : World) : World :=
  match reqs with
  | [] => w
  | req :: reqs' =>
      serve run_validation reqs' (snd (urlpatterns run_validation req w))
  end.

(** The identifier [pk] was handed out and its row is gone. *)
Definition gone (pk : Z) (st : Store) : Prop :=
  wf_store st /\ pk <= seq st /\ ~ In pk (map id (table st)).

(** [c in s] for a character. *)
Fixpoint has_char (c : ascii) (s : string) : bool :=
  match s with
  | EmptyString => false
  | String x s' => Ascii.eqb x c || has_char c s'
  end.

(** A query parameter, if supplied, holds no null character. *)
Definition nul_free (raw : option string) : Prop :=
  match raw with
  | Some v => Text.has_nul v = false
  | None => True
  end.

(** A database that has served no request yet, under a given clock. *)
Definition empty_world (clk : nat -> Z) : World :=
  mkWorld (mkStore [] 0) clk 0.

(** Every row is as a create stores it. *)
Definition pristine (st : Store) : Prop :=
  Forall (fun r => r = blank_rvm (id r)) (table st).

(** The number of [POST] requests in a sequence. *)
Fixpoint posts (reqs : list request) : Z :=
  match reqs with
  | [] => 0
  | POST_rvms _ :: reqs' => 1 + posts reqs'
  | _ :: reqs' => posts reqs'
  end.

(** A request that only reads: [GET]. *)
Definition is_get (req : request) : bool :=
  match req with
  | GET_rvms _ | GET_rvm _ _ => true
  | _ => false
  end.

(** *** What the statements about text say

    "Up to the case of letters" and "without surrounding whitespace",
    said by the code points of the characters and not by the functions
    of [Text]. *)

(** [c] and [d] are the same character up to case: they are equal, or
    one is a capital letter A..Z (code points 65..90) and the other its
    small letter a..z, 32 code points above.  No other character,
    accented letters included, has a second case. *)
Definition same_letter (c d : ascii) : Prop :=
  c = d
  \/ ((65 <= nat_of_ascii c <= 90)%nat
      /\ nat_of_ascii d = (nat_of_ascii c + 32)%nat)
  \/ ((65 <= nat_of_ascii d <= 90)%nat
      /\ nat_of_ascii c = (nat_of_ascii d + 32)%nat).

(** Two texts are the same up to case, character by character. *)
Inductive same_text : string -> string -> Prop :=
| same_text_empty : same_text "" ""
| same_text_char (c d : ascii) (s t : string) :
    same_letter c d -> same_text s t -> same_text (String c s) (String d t).

(** [p] occurs in [t] up to case: a part of [t] is the same text as [p]
    up to case. *)
Definition occurs_ignoring_case (p t : string) : Prop :=
  exists pre mid post, t = (pre ++ mid ++ post)%string /\ same_text mid p.

(** The whitespace characters, by code point: TAB, LF, VT, FF, CR, FS,
    GS, RS, US, SPACE, NEL and NBSP. *)
Definition whitespace (c : ascii) : Prop :=
  In (nat_of_ascii c) [9; 10; 11; 12; 13; 28; 29; 30; 31; 32; 133; 160]%nat.

Inductive all_whitespace : string -> Prop :=
| all_whitespace_empty : all_whitespace ""
| all_whitespace_char (c : ascii) (s : string) :
    whitespace c -> all_whitespace s -> all_whitespace (String c s).

(** [core] is [s] without its leading and trailing whitespace: [s] is
    whitespace, then [core], then whitespace, and [core] neither begins
    nor ends with a whitespace character. *)
Definition trimmed (s core : string) : Prop :=
  exists l r,
    s = (l ++ core ++ r)%string
    /\ all_whitespace l /\ all_whitespace r
    /\ (forall c rest, core = String c rest -> ~ whitespace c)
    /\ (forall front c, core = (front ++ String c "")%string -> ~ whitespace c).

(* ================================================================== *)
(** * Properties *)

(** ** Text *)

Lemma append_nil_r (s : string) : (s ++ "")%string = s.
Proof. induction s as [|c s IH]; simpl; [reflexivity | now rewrite IH]. Qed.

Lemma append_assoc (a b c : string) :
  ((a ++ b) ++ c)%string = (a ++ (b ++ c))%string.
Proof. induction a as [|x a IH]; simpl; [reflexivity | now rewrite IH]. Qed.

Lemma lower_app (a b : string) :
  Text.lower (a ++ b) = (Text.lower a ++ Text.lower b)%string.
Proof. induction a as [|x a IH]; simpl; [reflexivity | now rewrite IH]. Qed.

(** [lower] works character by character: a split of [lower t] comes
    from a split of [t]. *)
Lemma lower_split (a b t : string) :
  Text.lower t = (a ++ b)%string ->
  exists t1 t2, t = (t1 ++ t2)%string /\ Text.lower t1 = a /\ Text.lower t2 = b.
Proof.
  revert t; induction a as [|x a IH]; intros t H.
  - exists EmptyString, t. simpl in *. auto.
  - destruct t as [|c t]; simpl in H; [discriminate|].
    injection H as Hc Ht.
    destruct (IH _ Ht) as (t1 & t2 & -> & H1 & H2).
    exists (String c t1), t2. simpl. now rewrite Hc, H1, H2.
Qed.

Lemma startswith_spec (p t : string) :
  Text.startswith p t = true <-> exists post, t = (p ++ post)%string.
Proof.
  revert t; induction p as [|a p IH]; intros t; simpl.
  - split; [intros _; now exists t | reflexivity].
  - destruct t as [|b t].
    + split; [discriminate | intros [post H]; discriminate].
    + rewrite andb_true_iff, Ascii.eqb_eq, IH. split.
      * intros [-> [post ->]]. now exists post.
      * intros [post H]. injection H as -> ->. split; [reflexivity | now exists post].
Qed.

Lemma contains_spec (p t : string) :
  Text.contains p t = true <-> exists pre post, t = (pre ++ p ++ post)%string.
Proof.
  induction t as [|c t IH]; simpl; rewrite orb_true_iff, startswith_spec.
  - split.
    + intros [[post H] | H]; [|discriminate]. now exists EmptyString, post.
    + intros (pre & post & H). left. destruct pre; [now exists post | discriminate].
  - rewrite IH. split.
    + intros [[post H] | (pre & post & H)].
      * now exists EmptyString, post.
      * exists (String c pre), post. simpl. now rewrite H.
    + intros (pre & post & H). destruct pre as [|x pre]; simpl in H.
      * left. now exists post.
      * right. injection H as _ H. now exists pre, post.
Qed.

Lemma contains_empty (t : string) : Text.contains "" t = true.
Proof. destruct t; reflexivity. Qed.

(** The [icontains] lookup decides [substring_ci]. *)
Lemma lookup_icontains_spec (col v : string) :
  lookup_icontains col v = true <-> Text.substring_ci v col.
Proof.
  unfold lookup_icontains, Text.substring_ci. rewrite contains_spec. split.
  - intros (pre' & post' & H).
    destruct (lower_split _ _ _ H) as (pre & rest & -> & _ & Hrest).
    destruct (lower_split _ _ _ Hrest) as (mid & post & -> & Hmid & _).
    now exists pre, mid, post.
  - intros (pre & mid & post & -> & Hmid).
    exists (Text.lower pre), (Text.lower post).
    now rewrite !lower_app, Hmid.
Qed.

Lemma lookup_exact_spec (col v : string) :
  lookup_exact col v = true <-> col = v.
Proof. apply String.eqb_eq. Qed.

(** ** ORDER BY *)

Lemma null_le_total (a b : option Z) :
  null_le a b = true \/ null_le b a = true.
Proof.
  destruct a as [x|], b as [y|]; simpl; auto.
  destruct (Z.leb_spec x y); [now left | right; apply Z.leb_le; lia].
Qed.

Lemma null_le_trans (a b c : option Z) :
  null_le a b = true -> null_le b c = true -> null_le a c = true.
Proof.
  destruct a as [x|], b as [y|], c as [z|]; simpl; try easy.
  rewrite !Z.leb_le. lia.
Qed.

Section Ordering.

Variable o : direction * (RVM -> option Z).

Lemma precedes_total (a b : RVM) :
  precedes o a b = true \/ precedes o b a = true.
Proof.
  unfold precedes. destruct (fst o); [|apply or_comm]; apply null_le_total.
Qed.

Lemma precedes_trans (a b c : RVM) :
  precedes o a b = true -> precedes o b c = true -> precedes o a c = true.
Proof.
  unfold precedes. destruct (fst o); intros H1 H2;
    eauto using null_le_trans.
Qed.

Lemma insert_row_perm (r : RVM) (l : list RVM) :
  Permutation (r :: l) (insert_row o r l).
Proof.
  induction l as [|y l IH]; simpl; [reflexivity|].
  destruct (precedes o r y); [reflexivity|].
  rewrite perm_swap. now constructor.
Qed.

Lemma order_by_perm (l : list RVM) : Permutation l (order_by o l).
Proof.
  induction l as [|r l IH]; simpl; [constructor|].
  rewrite <- insert_row_perm. now constructor.
Qed.

Lemma order_by_In (x : RVM) (l : list RVM) :
  In x (order_by o l) <-> In x l.
Proof.
  split; apply Permutation_in; [symmetry|]; apply order_by_perm.
Qed.

Lemma insert_row_sorted (r : RVM) (l : list RVM) :
  StronglySorted (before o) l -> StronglySorted (before o) (insert_row o r l).
Proof.
  induction 1 as [|y l Hl IH Hy]; simpl.
  - repeat constructor.
  - destruct (precedes o r y) eqn:E.
    + constructor; [now constructor|].
      constructor; [exact E|].
      eapply Forall_impl; [|exact Hy]. intros z Hz.
      unfold before in *. eauto using precedes_trans.
    + constructor; [exact IH|].
      apply Forall_forall. intros z Hz.
      apply (Permutation_in _ (Permutation_sym (insert_row_perm r l))) in Hz.
      destruct Hz as [<- | Hz].
      * destruct (precedes_total r y) as [H | H]; [congruence | exact H].
      * rewrite Forall_forall in Hy. now apply Hy.
Qed.

Lemma order_by_sorted (l : list RVM) : StronglySorted (before o) (order_by o l).
Proof.
  induction l as [|r l IH]; simpl; [constructor | now apply insert_row_sorted].
Qed.

End Ordering.

Lemma order_by_singleton o (r : RVM) : order_by o [r] = [r].
Proof. reflexivity. Qed.

(** ** The table *)

Lemma filter_none {A : Type} (p : A -> bool) (l : list A) :
  (forall x, In x l -> p x = false) -> filter p l = [].
Proof.
  induction l as [|a l IH]; simpl; intros H; [reflexivity|].
  rewrite (H a) by auto. apply IH. auto.
Qed.

(** Under a primary key, a condition that pins the [id] selects at most
    the one row that has it. *)
Lemma filter_pk (p : RVM -> bool) (r : RVM) (l : list RVM) :
  NoDup (map id l) -> In r l -> p r = true ->
  (forall x, p x = true -> id x = id r) ->
  filter p l = [r].
Proof.
  induction l as [|a l IH]; simpl; intros Hnd Hin Hp Hid; [easy|].
  inversion Hnd as [|? ? Hnotin Hnd']; subst.
  destruct Hin as [-> | Hin].
  - rewrite Hp. f_equal. apply filter_none. intros x Hx.
    destruct (p x) eqn:E; [|reflexivity].
    exfalso. apply Hnotin. rewrite <- (Hid x E). now apply in_map.
  - destruct (p a) eqn:E.
    + exfalso. apply Hnotin. rewrite (Hid a E). now apply in_map.
    + now apply IH.
Qed.

(** Writing back a row that is in the table changes nothing. *)
Lemma save_same (r : RVM) (l : list RVM) :
  NoDup (map id l) -> In r l ->
  map (fun x => if id x =? id r then r else x) l = l.
Proof.
  induction l as [|a l IH]; simpl; intros Hnd Hin; [easy|].
  inversion Hnd as [|? ? Hnotin Hnd']; subst.
  destruct Hin as [-> | Hin].
  - rewrite Z.eqb_refl. f_equal.
    rewrite <- (map_id l) at 2. apply map_ext_in. intros x Hx.
    destruct (Z.eqb_spec (id x) (id r)) as [E|]; [|reflexivity].
    exfalso. apply Hnotin. rewrite <- E. now apply in_map.
  - destruct (Z.eqb_spec (id a) (id r)) as [E|].
    + exfalso. apply Hnotin. rewrite E. now apply in_map.
    + f_equal. now apply IH.
Qed.

(** ** Running the filters *)

Lemma eqb_true_r (b : bool) : Bool.eqb b true = b.
Proof. now destruct b. Qed.

Lemma select_ext (qs1 qs2 : QuerySet) (st : Store) :
  qs_ordering qs1 = qs_ordering qs2 ->
  (forall r, qs_where qs1 r = qs_where qs2 r) ->
  select qs1 st = select qs2 st.
Proof.
  intros Ho Hw. unfold select. rewrite Ho. f_equal.
  apply filter_ext. exact Hw.
Qed.

Lemma clean_errors_nil (q : query) (a b : string) :
  CharField_clean (q_location q) = Some a ->
  CharField_clean (q_loc q) = Some b ->
  valid_query q.
Proof. unfold valid_query, filterset_errors. now intros -> ->. Qed.

Lemma valid_query_clean (q : query) :
  valid_query q ->
  exists a b, CharField_clean (q_location q) = Some a
              /\ CharField_clean (q_loc q) = Some b.
Proof.
  unfold valid_query, filterset_errors.
  destruct (CharField_clean (q_location q)) as [a|];
    destruct (CharField_clean (q_loc q)) as [b|]; try discriminate.
  intros _. now exists a, b.
Qed.

(** A valid filter form: the backends return the queryset narrowed by
    the three predicates, and the clock is read once exactly when
    [recent] is true. *)
Lemma filter_queryset_valid (q : query) (a b : string) (qs : QuerySet)
  (w : World) :
  CharField_clean (q_location q) = Some a ->
  CharField_clean (q_loc q) = Some b ->
  exists qs',
    filter_queryset DEFAULT_FILTER_BACKENDS q qs w
    = (inr qs', match q_recent q with Some true => tick w | _ => w end)
    /\ qs_ordering qs' = qs_ordering qs
    /\ forall r, qs_where qs' r
                 = qs_where qs r
                   && (admits_location a r && admits_loc b r
                       && admits_recent (q_recent q) (clock w (reads w)) r).
Proof.
  intros Ha Hb.
  unfold DEFAULT_FILTER_BACKENDS, filter_queryset, RVMFilter_filter_queryset.
  rewrite Ha, Hb.
  unfold recent_filter, filter_recent, location_filter, loc_filter,
    CharFilter_filter, bind, ret, timezone_now, tick.
  destruct (q_recent q) as [[|]|]; simpl;
    (eexists; split; [reflexivity|]; split;
     [destruct a, b; reflexivity|]);
    intros r; unfold admits_location, admits_loc, admits_recent, used_since,
      lookup_isnull, lookup_gte;
    destruct a, b; simpl; destruct (qs_where qs r); simpl;
      rewrite ?andb_true_r; try reflexivity;
      destruct (last_usage r); simpl; rewrite ?andb_false_r, ?andb_assoc;
        reflexivity.
Qed.

(** An invalid filter form: the errors, and nothing else happens. *)
Lemma filter_queryset_invalid (q : query) (qs : QuerySet) (w : World) :
  ~ valid_query q ->
  filter_queryset DEFAULT_FILTER_BACKENDS q qs w = (inl (filterset_errors q), w).
Proof.
  intros Hq.
  unfold DEFAULT_FILTER_BACKENDS, filter_queryset, RVMFilter_filter_queryset.
  destruct (CharField_clean (q_location q)) as [a|] eqn:Ha;
    destruct (CharField_clean (q_loc q)) as [b|] eqn:Hb; try reflexivity.
  exfalso. apply Hq. eauto using clean_errors_nil.
Qed.

(** ** Running the read handlers *)

Lemma action_list_valid (q : query) (a b : string) (w : World) :
  CharField_clean (q_location q) = Some a ->
  CharField_clean (q_loc q) = Some b ->
  action_list q w
  = (Response_200_list
       (map to_representation
          (rows_where
             (fun r => is_active r
                       && (admits_location a r && admits_loc b r
                           && admits_recent (q_recent q) (clock w (reads w)) r))
             (db w))),
     match q_recent q with Some true => tick w | _ => w end).
Proof.
  intros Ha Hb. unfold action_list, bind at 1.
  destruct (filter_queryset_valid q a b queryset w Ha Hb) as (qs' & E & Ho & Hw).
  rewrite E. clear E.
  assert (Hdb : db (match q_recent q with Some true => tick w | _ => w end) = db w)
    by (destruct (q_recent q) as [[|]|]; reflexivity).
  set (w1 := match q_recent q with Some true => tick w | _ => w end) in *.
  cbv beta iota zeta delta [bind evaluate get_db ret].
  rewrite Hdb. do 3 f_equal. unfold select, rows_where. rewrite Ho. simpl.
  f_equal. apply filter_ext. intros r. rewrite Hw. simpl.
  now rewrite eqb_true_r.
Qed.

Lemma action_list_invalid (q : query) (w : World) :
  ~ valid_query q ->
  action_list q w = (Response_400 (filterset_errors q), w).
Proof.
  intros Hq. unfold action_list, bind.
  now rewrite (filter_queryset_invalid q queryset w Hq).
Qed.

Lemma get_object_valid (q : query) (a b : string) (pk : Z) (w : World) :
  CharField_clean (q_location q) = Some a ->
  CharField_clean (q_loc q) = Some b ->
  get_object q pk w
  = (match rows_where
             (fun r => is_active r
                       && (admits_location a r && admits_loc b r
                           && admits_recent (q_recent q) (clock w (reads w)) r)
                       && (id r =? pk))
             (db w) with
     | [] => inl Response_404
     | [o] => inr o
     | _ :: _ :: _ => inl Response_500
     end,
     match q_recent q with Some true => tick w | _ => w end).
Proof.
  intros Ha Hb. unfold get_object, bind at 1.
  destruct (filter_queryset_valid q a b queryset w Ha Hb) as (qs' & E & Ho & Hw).
  rewrite E. clear E.
  assert (Hdb : db (match q_recent q with Some true => tick w | _ => w end) = db w)
    by (destruct (q_recent q) as [[|]|]; reflexivity).
  set (w1 := match q_recent q with Some true => tick w | _ => w end) in *.
  cbv beta iota zeta delta [qs_get bind evaluate get_db ret].
  rewrite Hdb.
  assert (Hsel : select (qs_filter (fun r => id r =? pk) qs') (db w)
                 = rows_where
                     (fun r => is_active r
                       && (admits_location a r && admits_loc b r
                           && admits_recent (q_recent q) (clock w (reads w)) r)
                       && (id r =? pk)) (db w)).
  { unfold select, rows_where. simpl. rewrite Ho. simpl. f_equal.
    apply filter_ext. intros r. rewrite Hw. simpl. now rewrite eqb_true_r. }
  rewrite Hsel.
  destruct (rows_where _ (db w)) as [|o [|o' l]]; reflexivity.
Qed.

Lemma get_object_invalid (q : query) (pk : Z) (w : World) :
  ~ valid_query q ->
  get_object q pk w = (inl (Response_400 (filterset_errors q)), w).
Proof.
  intros Hq. unfold get_object, bind.
  now rewrite (filter_queryset_invalid q queryset w Hq).
Qed.

(** No active row has the identifier: not found. *)
Lemma get_object_not_found (q : query) (pk : Z) (w : World) :
  valid_query q ->
  (forall r, In r (table (db w)) -> id r = pk -> is_active r = false) ->
  get_object q pk w
  = (inl Response_404, match q_recent q with Some true => tick w | _ => w end).
Proof.
  intros Hq Hno. destruct (valid_query_clean q Hq) as (a & b & Ha & Hb).
  rewrite (get_object_valid q a b pk w Ha Hb). unfold rows_where.
  rewrite filter_none; [reflexivity|].
  intros r Hr. destruct (Z.eqb_spec (id r) pk) as [E|].
  - now rewrite (Hno r Hr E).
  - apply andb_false_r.
Qed.

(** An active row that the filters of the request admit is found. *)
Lemma get_object_found (q : query) (a b : string) (r : RVM) (w : World) :
  CharField_clean (q_location q) = Some a ->
  CharField_clean (q_loc q) = Some b ->
  wf_store (db w) -> In r (table (db w)) -> is_active r = true ->
  admits_location a r && admits_loc b r
  && admits_recent (q_recent q) (clock w (reads w)) r = true ->
  get_object q (id r) w
  = (inr r, match q_recent q with Some true => tick w | _ => w end).
Proof.
  intros Ha Hb [Hnd _] Hin Hact Hadm.
  rewrite (get_object_valid q a b (id r) w Ha Hb). unfold rows_where.
  rewrite (filter_pk _ r); trivial.
  - now rewrite Hact, Hadm, Z.eqb_refl.
  - intros x Hx. apply andb_true_iff in Hx. now apply Z.eqb_eq.
Qed.

Lemma get_object_plain (r : RVM) (w : World) :
  wf_store (db w) -> In r (table (db w)) -> is_active r = true ->
  get_object no_query (id r) w = (inr r, w).
Proof.
  intros Hwf Hin Hact.
  now rewrite (get_object_found no_query "" "" r w).
Qed.

(** An inactive row is the only row with its identifier. *)
Lemma inactive_pk (r : RVM) (st : Store) :
  wf_store st -> In r (table st) -> is_active r = false ->
  forall x, In x (table st) -> id x = id r -> is_active x = false.
Proof.
  intros [Hnd _] Hin Hact x Hx E.
  assert (x = r); [|now subst].
  clear Hact. induction (table st) as [|y l IH]; [easy|].
  simpl in Hnd. inversion Hnd as [|? ? Hnotin Hnd']; subst.
  destruct Hin as [-> | Hin], Hx as [-> | Hx]; auto.
  - exfalso. apply Hnotin. rewrite <- E. now apply in_map.
  - exfalso. apply Hnotin. rewrite E. now apply in_map.
Qed.

(** The read handlers leave the database alone. *)
Lemma get_object_db (q : query) (pk : Z) (w : World) :
  db (snd (get_object q pk w)) = db w.
Proof.
  destruct (filterset_errors q) as [|e es] eqn:E.
  - destruct (valid_query_clean q E) as (a & b & Ha & Hb).
    rewrite (get_object_valid q a b pk w Ha Hb). simpl.
    destruct (q_recent q) as [[|]|]; reflexivity.
  - rewrite get_object_invalid; [reflexivity|].
    unfold valid_query. now rewrite E.
Qed.

Lemma get_object_inr (q : query) (pk : Z) (w w' : World) (o : RVM) :
  get_object q pk w = (inr o, w') ->
  In o (table (db w)) /\ is_active o = true /\ id o = pk /\ db w' = db w.
Proof.
  intros H. pose proof (get_object_db q pk w) as Hdb. rewrite H in Hdb.
  simpl in Hdb. destruct (filterset_errors q) as [|e es] eqn:E.
  - destruct (valid_query_clean q E) as (a & b & Ha & Hb).
    rewrite (get_object_valid q a b pk w Ha Hb) in H.
    destruct (rows_where _ (db w)) as [|x [|y l]] eqn:R; try discriminate.
    injection H as -> _.
    assert (Hin : In o (rows_where
      (fun r => is_active r
                && (admits_location a r && admits_loc b r
                    && admits_recent (q_recent q) (clock w (reads w)) r)
                && (id r =? pk)) (db w))) by (rewrite R; now left).
    unfold rows_where in Hin. rewrite order_by_In, filter_In in Hin.
    destruct Hin as [Hin Hc]. rewrite !andb_true_iff, Z.eqb_eq in Hc.
    tauto.
  - rewrite get_object_invalid in H; [discriminate|].
    unfold valid_query. now rewrite E.
Qed.

(** ** Running the write handlers *)

Section WriteProperties.

Variable run_validation : bool -> field -> option prim -> field_result.

Lemma writable_none : _writable_fields = [].
Proof. reflexivity. Qed.

(** Whatever the body, and whatever the validation of a writable field
    would say, nothing is validated and nothing is an error. *)
Lemma to_internal_value_nothing (partial : bool) (body : data) :
  to_internal_value run_validation partial body = inr [].
Proof. unfold to_internal_value. now rewrite writable_none. Qed.

Lemma action_create_run (body : data) (w : World) :
  action_create run_validation body w
  = (Response_201 (to_representation (blank_rvm (seq (db w) + 1))),
     with_db (mkStore (table (db w) ++ [blank_rvm (seq (db w) + 1)])
                (seq (db w) + 1)) w).
Proof.
  unfold action_create. now rewrite to_internal_value_nothing.
Qed.

Lemma action_update_run (partial : bool) (q : query) (pk : Z) (body : data)
  (w : World) :
  action_update run_validation partial q pk body w
  = match get_object q pk w with
    | (inl resp, w') => (resp, w')
    | (inr o, w') =>
        (Response_200 (to_representation o),
         with_db (mkStore (map (fun x => if id x =? id o then o else x)
                             (table (db w')))
                    (seq (db w'))) w')
    end.
Proof.
  unfold action_update, bind at 1.
  destruct (get_object q pk w) as [[resp | o] w']; [reflexivity|].
  now rewrite to_internal_value_nothing.
Qed.

(** An update leaves the database as it was. *)
Lemma action_update_db (partial : bool) (q : query) (pk : Z) (body : data)
  (w : World) :
  wf_store (db w) ->
  db (snd (action_update run_validation partial q pk body w)) = db w.
Proof.
  intros Hwf. rewrite action_update_run.
  destruct (get_object q pk w) as [[resp | o] w'] eqn:G.
  - pose proof (get_object_db q pk w) as H. now rewrite G in H.
  - destruct (get_object_inr _ _ _ _ _ G) as (Hin & _ & _ & Hdb).
    simpl. rewrite Hdb, save_same; [now destruct (db w) | apply Hwf | exact Hin].
Qed.

Lemma action_update_plain (partial : bool) (r : RVM) (body : data)
  (w : World) :
  wf_store (db w) -> In r (table (db w)) -> is_active r = true ->
  action_update run_validation partial no_query (id r) body w
  = (Response_200 (to_representation r), w).
Proof.
  intros Hwf Hin Hact. rewrite action_update_run, get_object_plain by trivial.
  unfold with_db. rewrite save_same; [|apply Hwf | exact Hin].
  now destruct w as [[t s] c n].
Qed.

End WriteProperties.

Lemma action_destroy_run (q : query) (pk : Z) (w : World) :
  action_destroy q pk w
  = match get_object q pk w with
    | (inl resp, w') => (resp, w')
    | (inr o, w') =>
        (Response_204,
         with_db (mkStore (filter (fun x => negb (id x =? id o)) (table (db w')))
                    (seq (db w'))) w')
    end.
Proof.
  unfold action_destroy, bind at 1.
  now destruct (get_object q pk w) as [[resp | o] w'].
Qed.

Lemma action_retrieve_run (q : query) (pk : Z) (w : World) :
  action_retrieve q pk w
  = match get_object q pk w with
    | (inl resp, w') => (resp, w')
    | (inr o, w') => (Response_200 (to_representation o), w')
    end.
Proof.
  unfold action_retrieve, bind at 1.
  now destruct (get_object q pk w) as [[resp | o] w'].
Qed.

(** ** What a request does to the database *)

Lemma action_list_db (q : query) (w : World) :
  db (snd (action_list q w)) = db w.
Proof.
  destruct (filterset_errors q) as [|e es] eqn:E.
  - destruct (valid_query_clean q E) as (a & b & Ha & Hb).
    rewrite (action_list_valid q a b w Ha Hb). simpl.
    destruct (q_recent q) as [[|]|]; reflexivity.
  - rewrite action_list_invalid; [reflexivity|].
    unfold valid_query. now rewrite E.
Qed.

(** A request leaves the table as it is, appends the blank record under
    the next identifier, or deletes the rows of one identifier. *)
Lemma urlpatterns_db run_validation (req : request) (w : World) :
  wf_store (db w) ->
  db (snd (urlpatterns run_validation req w)) = db w
  \/ db (snd (urlpatterns run_validation req w))
     = mkStore (table (db w) ++ [blank_rvm (seq (db w) + 1)]) (seq (db w) + 1)
  \/ exists pk, db (snd (urlpatterns run_validation req w))
                = mkStore (filter (fun x => negb (id x =? pk)) (table (db w)))
                    (seq (db w)).
Proof.
  intros Hwf. destruct req as [q | body | q pk | q pk body | q pk body | q pk];
    unfold urlpatterns.
  - left. apply action_list_db.
  - right. left. now rewrite action_create_run.
  - left. rewrite action_retrieve_run.
    pose proof (get_object_db q pk w) as H.
    now destruct (get_object q pk w) as [[resp | o] w'].
  - left. now apply action_update_db.
  - left. now apply action_update_db.
  - rewrite action_destroy_run.
    pose proof (get_object_db q pk w) as H.
    destruct (get_object q pk w) as [[resp | o] w']; simpl in *.
    + now left.
    + right. right. exists (id o). now rewrite H.
Qed.

Lemma NoDup_map_filter (p : RVM -> bool) (l : list RVM) :
  NoDup (map id l) -> NoDup (map id (filter p l)).
Proof.
  induction l as [|a l IH]; simpl; intros H; [constructor|].
  inversion H as [|? ? Hnotin Hnd]; subst.
  destruct (p a); simpl; [constructor|]; auto.
  intros Hin. apply Hnotin. apply in_map_iff in Hin.
  destruct Hin as (x & Hx & Hf). apply filter_In in Hf.
  rewrite <- Hx. now apply in_map.
Qed.

Lemma wf_insert (st : Store) :
  wf_store st ->
  wf_store (mkStore (table st ++ [blank_rvm (seq st + 1)]) (seq st + 1)).
Proof.
  intros [Hnd Hle]. split; simpl.
  - rewrite map_app. simpl.
    apply NoDup_app; [exact Hnd | repeat constructor; easy |].
    intros k Hk [<- | []]. apply in_map_iff in Hk. destruct Hk as (x & Hx & Hin).
    rewrite Forall_forall in Hle. specialize (Hle x Hin). lia.
  - apply Forall_app. split.
    + eapply Forall_impl; [|exact Hle]. simpl. intros; lia.
    + repeat constructor. simpl. lia.
Qed.

Lemma wf_delete (pk : Z) (st : Store) :
  wf_store st ->
  wf_store (mkStore (filter (fun x => negb (id x =? pk)) (table st)) (seq st)).
Proof.
  intros [Hnd Hle]. split; simpl.
  - now apply NoDup_map_filter.
  - rewrite Forall_forall in *. intros x Hx. apply filter_In in Hx.
    apply Hle, Hx.
Qed.

(** The primary-key invariant is kept by every request. *)
Lemma wf_urlpatterns run_validation (req : request) (w : World) :
  wf_store (db w) -> wf_store (db (snd (urlpatterns run_validation req w))).
Proof.
  intros Hwf.
  destruct (urlpatterns_db run_validation req w Hwf) as [-> | [-> | [pk ->]]];
    auto using wf_insert, wf_delete.
Qed.

(** An identifier whose row is gone stays gone. *)
Lemma gone_urlpatterns run_validation (pk : Z) (req : request) (w : World) :
  gone pk (db w) -> gone pk (db (snd (urlpatterns run_validation req w))).
Proof.
  intros (Hwf & Hle & Hno). split; [now apply wf_urlpatterns|].
  destruct (urlpatterns_db run_validation req w Hwf) as [-> | [-> | [k ->]]];
    simpl.
  - now split.
  - split; [lia|]. rewrite map_app, in_app_iff. simpl. intros [H | [H | []]].
    + now apply Hno.
    + lia.
  - split; [exact Hle|]. intros H. apply Hno. apply in_map_iff in H.
    destruct H as (x & Hx & Hin). apply filter_In in Hin.
    rewrite <- Hx. now apply in_map.
Qed.

Lemma gone_serve run_validation (pk : Z) (reqs : list request) (w : World) :
  gone pk (db w) -> gone pk (db (serve run_validation reqs w)).
Proof.
  revert w; induction reqs as [|req reqs IH]; intros w H; simpl; [exact H|].
  apply IH. now apply gone_urlpatterns.
Qed.

Lemma rows_where_ext (c1 c2 : RVM -> bool) (st : Store) :
  (forall r, c1 r = c2 r) -> rows_where c1 st = rows_where c2 st.
Proof. intros H. unfold rows_where. f_equal. now apply filter_ext. Qed.

Lemma rows_where_In (cond : RVM -> bool) (st : Store) (r : RVM) :
  In r (rows_where cond st) <-> In r (table st) /\ cond r = true.
Proof. unfold rows_where. now rewrite order_by_In, filter_In. Qed.

Lemma shown_last_usage_repr (r : RVM) :
  shown_last_usage (to_representation r) = last_usage r.
Proof. unfold shown_last_usage. simpl. now destruct (last_usage r). Qed.

Lemma before_desc_nulls_last (a b : RVM) :
  before Meta_ordering a b ->
  desc_nulls_last (last_usage a) (last_usage b).
Proof.
  unfold before, precedes, Meta_ordering. simpl.
  destruct (last_usage a), (last_usage b); simpl; try easy.
  now rewrite Z.leb_le.
Qed.

Lemma StronglySorted_map {A B : Type} (R : A -> A -> Prop) (S : B -> B -> Prop)
  (f : A -> B) (l : list A) :
  (forall a b, R a b -> S (f a) (f b)) ->
  StronglySorted R l -> StronglySorted S (map f l).
Proof.
  intros HRS. induction 1 as [|a l Hl IH Ha]; simpl; constructor; [exact IH|].
  apply Forall_forall. intros y Hy. apply in_map_iff in Hy.
  destruct Hy as (x & <- & Hx). rewrite Forall_forall in Ha. auto.
Qed.

(** A list response is the representation of rows of one condition. *)
Lemma action_list_200 (q : query) (w : World) (results : list data) :
  fst (action_list q w) = Response_200_list results ->
  exists cond,
    results = map to_representation (rows_where cond (db w))
    /\ forall r, cond r = true -> is_active r = true.
Proof.
  intros H. destruct (filterset_errors q) as [|e es] eqn:E.
  - destruct (valid_query_clean q E) as (a & b & Ha & Hb).
    rewrite (action_list_valid q a b w Ha Hb) in H. simpl in H.
    injection H as <-. eexists. split; [reflexivity|].
    intros r Hr. now apply andb_true_iff in Hr.
  - rewrite action_list_invalid in H; [discriminate|].
    unfold valid_query. now rewrite E.
Qed.

Lemma to_representation_inj (a b : RVM) :
  to_representation a = to_representation b -> a = b.
Proof.
  destruct a as [i n l act u], b as [i' n' l' act' u'].
  unfold to_representation. simpl. intros H.
  injection H as -> -> -> -> Hu.
  destruct u, u'; try discriminate; [injection Hu as -> |]; reflexivity.
Qed.

(* ================================================================== *)
(** * The claims *)

(** ** C5 *)

(** C5: the records the endpoint shows are exactly the active ones.  The
    view's queryset selects the rows with [is_active = true] and no
    others; an unfiltered list is the active rows in listing order;
    whatever the query parameters, every record of a list response is
    the representation of an active row (its [is_active] is [true]);
    and retrieve on an identifier that no active row has (the row is
    inactive, or absent) answers 404, as do update and delete, the
    other operations addressed to an identifier. *)
Theorem visible_set_is_active_rows
  (run_validation : bool -> field -> option prim -> field_result)
  (w : World) :
  (forall r, In r (select queryset (db w))
             <-> In r (table (db w)) /\ is_active r = true)
  /\ action_list no_query w
     = (Response_200_list (map to_representation (rows_where is_active (db w))),
        w)
  /\ (forall q results,
        fst (action_list q w) = Response_200_list results ->
        forall d, In d results ->
          get_value d "is_active" = Some (PBool true)
          /\ exists r, d = to_representation r
                       /\ In r (table (db w)) /\ is_active r = true)
  /\ (forall q pk,
        valid_query q ->
        (forall r, In r (table (db w)) -> id r = pk -> is_active r = false) ->
        fst (action_retrieve q pk w) = Response_404)
  /\ (forall q pk partial body,
        valid_query q ->
        (forall r, In r (table (db w)) -> id r = pk -> is_active r = false) ->
        fst (action_update run_validation partial q pk body w) = Response_404
        /\ fst (action_destroy q pk w) = Response_404).
Proof.
  split; [|split; [|split; [|split]]].
  - intros r. unfold select. rewrite order_by_In, filter_In. simpl.
    rewrite eqb_true_r. tauto.
  - rewrite (action_list_valid no_query "" "" w) by reflexivity.
    simpl. do 3 f_equal. unfold rows_where. f_equal. apply filter_ext.
    intros r. simpl. now rewrite andb_true_r.
  - intros q results H d Hd.
    destruct (action_list_200 q w results H) as (cond & -> & Hc).
    apply in_map_iff in Hd. destruct Hd as (r & <- & Hr).
    apply rows_where_In in Hr. destruct Hr as [Hin Hcond].
    pose proof (Hc r Hcond) as Hact. split.
    + simpl. now rewrite Hact.
    + now exists r.
  - intros q pk Hq Hno. rewrite action_retrieve_run.
    now rewrite (get_object_not_found q pk w Hq Hno).
  - intros q pk partial body Hq Hno.
    rewrite action_update_run, action_destroy_run.
    now rewrite (get_object_not_found q pk w Hq Hno).
Qed.

Lemma visible_set_is_active_rows_witness :
  fst (action_retrieve no_query 3 example_world) = Response_404
  /\ fst (action_retrieve no_query 7 example_world) = Response_404.
Proof.
  split.
  - apply (proj1 (proj2 (proj2 (proj2
             (visible_set_is_active_rows required_validation example_world))))).
    + reflexivity.
    + intros r Hr E. simpl in Hr.
      destruct Hr as [<- | [<- | [<- | [<- | []]]]];
        simpl in E; try discriminate; reflexivity.
  - apply (proj1 (proj2 (proj2 (proj2
             (visible_set_is_active_rows required_validation example_world))))).
    + reflexivity.
    + intros r Hr E. simpl in Hr.
      destruct Hr as [<- | [<- | [<- | [<- | []]]]];
        simpl in E; discriminate.
Defined.

(** ** C6 *)

(** C6: in every list response the records are in descending order of
    [last_usage] with nulls last: of two records, the earlier has the
    later (or equal) [last_usage] when both have one, and a record
    without one is followed only by records without one. *)
Theorem list_is_desc_nulls_last (q : query) (w : World) (results : list data) :
  fst (action_list q w) = Response_200_list results ->
  StronglySorted
    (fun a b => desc_nulls_last (shown_last_usage a) (shown_last_usage b))
    results.
Proof.
  intros H. destruct (action_list_200 q w results H) as (cond & -> & _).
  apply StronglySorted_map with (R := before Meta_ordering).
  - intros a b Hab. rewrite !shown_last_usage_repr.
    now apply before_desc_nulls_last.
  - apply order_by_sorted.
Qed.

Lemma list_is_desc_nulls_last_witness :
  StronglySorted
    (fun a b => desc_nulls_last (shown_last_usage a) (shown_last_usage b))
    (map to_representation
       [mkRVM 2 "RVM-2" "Alexandria" true (Some 90000000000);
        mkRVM 4 "RVM-4" "New Cairo" true (Some 10000000000);
        mkRVM 1 "RVM-1" "Cairo" true None]).
Proof.
  apply (list_is_desc_nulls_last no_query example_world). reflexivity.
Defined.

(** ** C7 *)

Lemma timedelta_24h : timedelta_hours 24 = 86400000000.
Proof. reflexivity. Qed.

Lemma used_since_spec (cutoff : Z) (r : RVM) :
  used_since cutoff r = true
  <-> exists t, last_usage r = Some t /\ cutoff <= t.
Proof.
  unfold used_since. destruct (last_usage r) as [t|].
  - rewrite Z.leb_le. split; [intros H; now exists t |].
    intros (t' & E & H). now injection E as ->.
  - split; [discriminate | intros (t & E & _); discriminate].
Qed.

(** C7: with [recent=true] the list is exactly the active rows whose
    [last_usage] is not null and is at or after [now - 24h], where [now]
    is one reading of the clock, the only one the request makes, against
    which every row is compared (also when other filters are supplied);
    with [recent=false] the response is the one of the same request
    without [recent], and with neither filter all active rows are
    listed, the clock not being read. *)
Theorem recent_is_24h_before_one_reading (w : World) :
  let now := clock w (reads w) in
  (exists rows,
     action_list (mkQuery None None (Some true)) w
     = (Response_200_list (map to_representation rows), tick w)
     /\ rows = rows_where
                 (fun r => is_active r && used_since (now - 86400000000) r)
                 (db w)
     /\ forall r, In r rows
                  <-> In r (table (db w)) /\ is_active r = true
                      /\ exists t, last_usage r = Some t
                                   /\ now - 86400000000 <= t)
  /\ reads (tick w) = S (reads w)
  /\ (forall l s, action_list (mkQuery l s (Some false)) w
                  = action_list (mkQuery l s None) w)
  /\ action_list (mkQuery None None (Some false)) w
     = (Response_200_list (map to_representation (rows_where is_active (db w))),
        w)
  /\ action_list no_query w
     = (Response_200_list (map to_representation (rows_where is_active (db w))),
        w)
  /\ (forall q a b,
        CharField_clean (q_location q) = Some a ->
        CharField_clean (q_loc q) = Some b ->
        q_recent q = Some true ->
        action_list q w
        = (Response_200_list
             (map to_representation
                (rows_where
                   (fun r => is_active r
                             && (admits_location a r && admits_loc b r
                                 && used_since (now - 86400000000) r))
                   (db w))),
           tick w)).
Proof.
  intros now.
  assert (Hplain : action_list no_query w
                   = (Response_200_list
                        (map to_representation (rows_where is_active (db w))), w)).
  { rewrite (action_list_valid no_query "" "" w) by reflexivity.
    simpl. do 3 f_equal. unfold rows_where. f_equal. apply filter_ext.
    intros r. simpl. now rewrite andb_true_r. }
  assert (Hfalse : forall l s, action_list (mkQuery l s (Some false)) w
                               = action_list (mkQuery l s None) w)
    by reflexivity.
  split; [|split; [reflexivity | split; [exact Hfalse | split; [|split]]]].
  - eexists. split; [|split; [reflexivity|]].
    + rewrite (action_list_valid (mkQuery None None (Some true)) "" "" w)
        by reflexivity.
      simpl. rewrite timedelta_24h. reflexivity.
    + intros r. rewrite rows_where_In, andb_true_iff, used_since_spec. tauto.
  - rewrite (Hfalse None None). exact Hplain.
  - exact Hplain.
  - intros q a b Ha Hb Hr.
    rewrite (action_list_valid q a b w Ha Hb), Hr. simpl.
    now rewrite timedelta_24h.
Qed.

Lemma recent_is_24h_before_one_reading_witness :
  action_list (mkQuery None (Some " alex") (Some true)) example_world
  = (Response_200_list
       [to_representation
          (mkRVM 2 "RVM-2" "Alexandria" true (Some 90000000000))],
     tick example_world).
Proof.
  apply (proj2 (proj2 (proj2 (proj2 (proj2
           (recent_is_24h_before_one_reading example_world)))))
           (mkQuery None (Some " alex") (Some true)) "" "alex");
    reflexivity.
Defined.

(** ** C9 *)

Lemma admits_location_spec (v : string) (r : RVM) :
  admits_location v r = true <-> v = "" \/ location r = v.
Proof.
  unfold admits_location. destruct v as [|c v].
  - split; auto.
  - rewrite lookup_exact_spec. split; [auto | intros [H | H]; easy].
Qed.

Lemma admits_loc_spec (v : string) (r : RVM) :
  admits_loc v r = true <-> v = "" \/ Text.substring_ci v (location r).
Proof.
  unfold admits_loc. destruct v as [|c v].
  - split; auto.
  - rewrite lookup_icontains_spec. split; [auto | intros [H | H]; easy].
Qed.

(** C9: the filters supplied are combined by conjunction.  For a request
    whose filter form is valid, with [a] and [b] the cleaned values of
    [location] and [loc]: the list is the active rows that satisfy the
    predicate of [location] (exact match with [a]) and that of [loc]
    ([b] as a substring, any case) and that of [recent]; each predicate
    is the one its parameter has alone, so a row is listed exactly when
    each of the three single-parameter requests lists it; and without
    parameters all active rows are listed. *)
Theorem filters_are_conjoined (q : query) (a b : string) (w : World) :
  CharField_clean (q_location q) = Some a ->
  CharField_clean (q_loc q) = Some b ->
  let now := clock w (reads w) in
  let lists (q' : query) (cond : RVM -> bool) : Prop :=
    fst (action_list q' w)
    = Response_200_list (map to_representation (rows_where cond (db w))) in
  lists q (fun r => is_active r
                    && (admits_location a r && admits_loc b r
                        && admits_recent (q_recent q) now r))
  /\ lists (mkQuery (q_location q) None None)
       (fun r => is_active r && admits_location a r)
  /\ lists (mkQuery None (q_loc q) None)
       (fun r => is_active r && admits_loc b r)
  /\ lists (mkQuery None None (q_recent q))
       (fun r => is_active r && admits_recent (q_recent q) now r)
  /\ lists no_query is_active
  /\ (forall r,
        In r (rows_where
                (fun r => is_active r
                          && (admits_location a r && admits_loc b r
                              && admits_recent (q_recent q) now r)) (db w))
        <-> In r (rows_where (fun r => is_active r && admits_location a r) (db w))
            /\ In r (rows_where (fun r => is_active r && admits_loc b r) (db w))
            /\ In r (rows_where
                       (fun r => is_active r
                                 && admits_recent (q_recent q) now r) (db w)))
  /\ (forall r, admits_location a r = true <-> a = "" \/ location r = a)
  /\ (forall r, admits_loc b r = true
                <-> b = "" \/ Text.substring_ci b (location r)).
Proof.
  intros Ha Hb now lists. unfold lists.
  repeat match goal with |- _ /\ _ => split end.
  - now rewrite (action_list_valid q a b w Ha Hb).
  - rewrite (action_list_valid (mkQuery (q_location q) None None) a "" w)
      by (trivial; reflexivity).
    simpl. do 2 f_equal. apply rows_where_ext. intros r.
    now rewrite !andb_true_r.
  - rewrite (action_list_valid (mkQuery None (q_loc q) None) "" b w)
      by (trivial; reflexivity).
    simpl. do 2 f_equal. apply rows_where_ext. intros r.
    now rewrite !andb_true_r.
  - rewrite (action_list_valid (mkQuery None None (q_recent q)) "" "" w)
      by reflexivity.
    reflexivity.
  - rewrite (action_list_valid no_query "" "" w) by reflexivity.
    simpl. do 2 f_equal. apply rows_where_ext. intros r.
    now rewrite !andb_true_r.
  - intros r. rewrite !rows_where_In, !andb_true_iff. tauto.
  - intros r. apply admits_location_spec.
  - intros r. apply admits_loc_spec.
Qed.

Lemma filters_are_conjoined_witness :
  fst (action_list (mkQuery (Some "New Cairo") (Some "CAIRO ") (Some false))
         example_world)
  = Response_200_list
      (map to_representation
         (rows_where
            (fun r => is_active r
                      && (admits_location "New Cairo" r
                          && admits_loc "CAIRO" r
                          && admits_recent (Some false)
                               (clock example_world (reads example_world)) r))
            (db example_world))).
Proof.
  apply (filters_are_conjoined
           (mkQuery (Some "New Cairo") (Some "CAIRO ") (Some false))
           "New Cairo" "CAIRO" example_world); reflexivity.
Defined.

(** ** C8 *)

Lemma isspace_not_nul (c : ascii) :
  Text.isspace c = true -> Ascii.eqb c zero = false.
Proof.
  intros H. destruct (Ascii.eqb_spec c zero) as [-> |]; [|reflexivity].
  vm_compute in H. discriminate.
Qed.

Lemma has_nul_lstrip (s : string) : Text.has_nul (Text.lstrip s) = Text.has_nul s.
Proof.
  induction s as [|c s IH]; simpl; [reflexivity|].
  destruct (Text.isspace c) eqn:E; [|reflexivity].
  now rewrite IH, (isspace_not_nul c E).
Qed.

Lemma has_nul_rstrip (s : string) : Text.has_nul (Text.rstrip s) = Text.has_nul s.
Proof.
  induction s as [|c s IH]; simpl; [reflexivity|].
  destruct (Text.rstrip s) as [|c' t]; rewrite <- IH.
  - destruct (Text.isspace c) eqn:E; simpl; [|reflexivity].
    now rewrite (isspace_not_nul c E).
  - reflexivity.
Qed.

Lemma has_nul_strip (s : string) : Text.has_nul (Text.strip s) = Text.has_nul s.
Proof. unfold Text.strip. now rewrite has_nul_rstrip, has_nul_lstrip. Qed.

Lemma admits_loc_icontains (v : string) (r : RVM) :
  admits_loc v r = lookup_icontains (location r) v.
Proof.
  destruct v; [|reflexivity]. symmetry. apply contains_empty.
Qed.

Lemma code_inj (a b : ascii) : nat_of_ascii a = nat_of_ascii b -> a = b.
Proof.
  intros E. rewrite <- (ascii_nat_embedding a), <- (ascii_nat_embedding b).
  now rewrite E.
Qed.

(** The folding of [LIKE] identifies exactly the characters that are the
    same up to case. *)
Lemma lower_char_same_letter (c d : ascii) :
  Text.lower_char c = Text.lower_char d <-> same_letter c d.
Proof.
  unfold Text.lower_char, Text.code, same_letter.
  pose proof (nat_ascii_bounded c) as Bc.
  pose proof (nat_ascii_bounded d) as Bd.
  destruct (Nat.leb_spec 65 (nat_of_ascii c));
    destruct (Nat.leb_spec (nat_of_ascii c) 90);
    destruct (Nat.leb_spec 65 (nat_of_ascii d));
    destruct (Nat.leb_spec (nat_of_ascii d) 90); simpl;
    (split;
     [ intros E; apply (f_equal nat_of_ascii) in E;
       rewrite ?nat_ascii_embedding in E by lia;
       ((left; apply code_inj; lia) || (right; left; lia) || (right; right; lia))
     | intros [E | [[E1 E2] | [E1 E2]]];
       apply code_inj; rewrite ?nat_ascii_embedding by lia;
       try (apply (f_equal nat_of_ascii) in E); lia ]).
Qed.

Lemma lower_same_text (s t : string) :
  Text.lower s = Text.lower t <-> same_text s t.
Proof.
  split.
  - revert t; induction s as [|c s IH]; intros [|d t] H; simpl in H;
      try discriminate; [constructor|].
    injection H as Hc Hs. constructor; [now apply lower_char_same_letter | auto].
  - induction 1 as [|c d s t Hcd _ IH]; simpl; [reflexivity|].
    now rewrite (proj2 (lower_char_same_letter c d) Hcd), IH.
Qed.

(** The [icontains] lookup decides [occurs_ignoring_case]. *)
Lemma lookup_icontains_occurs (col v : string) :
  lookup_icontains col v = true <-> occurs_ignoring_case v col.
Proof.
  rewrite lookup_icontains_spec.
  unfold Text.substring_ci, occurs_ignoring_case.
  split; intros (pre & mid & post & E & H); exists pre, mid, post;
    (split; [exact E | now apply lower_same_text]).
Qed.

Lemma isspace_whitespace (c : ascii) :
  Text.isspace c = true <-> whitespace c.
Proof.
  unfold Text.isspace, Text.code, whitespace.
  rewrite !orb_true_iff, !andb_true_iff, !Nat.leb_le, !Nat.eqb_eq.
  simpl. lia.
Qed.

Lemma lstrip_trim (s : string) :
  exists l,
    s = (l ++ Text.lstrip s)%string /\ all_whitespace l
    /\ forall c rest, Text.lstrip s = String c rest -> ~ whitespace c.
Proof.
  induction s as [|c s (l & E & Hl & Hfirst)]; simpl.
  - exists EmptyString. repeat split; [constructor | discriminate].
  - destruct (Text.isspace c) eqn:Ec.
    + exists (String c l). split; [simpl; f_equal; exact E|].
      split; [|exact Hfirst].
      constructor; [now apply isspace_whitespace | exact Hl].
    + exists EmptyString. split; [reflexivity|]. split; [constructor|].
      intros x rest H. injection H as <- _.
      rewrite <- isspace_whitespace, Ec. discriminate.
Qed.

Lemma append_single_inv (front : string) (x c : ascii) :
  (front ++ String x "")%string = String c "" -> x = c.
Proof.
  destruct front as [|y front]; simpl; intros H.
  - now injection H.
  - injection H as _ H. destruct front; discriminate.
Qed.

Lemma rstrip_trim (t : string) :
  exists r,
    t = (Text.rstrip t ++ r)%string /\ all_whitespace r
    /\ forall front c,
         Text.rstrip t = (front ++ String c "")%string -> ~ whitespace c.
Proof.
  induction t as [|c t (r & E & Hr & Hlast)]; simpl.
  - exists EmptyString. repeat split; [constructor|].
    intros front x H. destruct front; discriminate.
  - destruct (Text.rstrip t) as [|a u] eqn:R.
    + destruct (Text.isspace c) eqn:Ec.
      * exists (String c r). split; [simpl; f_equal; exact E|].
        split; [constructor; [now apply isspace_whitespace | exact Hr]|].
        intros front x H. destruct front; discriminate.
      * exists r. split; [simpl; f_equal; exact E|]. split; [exact Hr|].
        intros front x H. symmetry in H. apply append_single_inv in H.
        subst x.
        rewrite <- isspace_whitespace, Ec. discriminate.
    + exists r. split; [simpl; f_equal; exact E|]. split; [exact Hr|].
      intros front x H. destruct front as [|y front]; simpl in H.
      * discriminate.
      * injection H as _ H. exact (Hlast front x H).
Qed.

(** [strip] removes the whitespace around a text and nothing else. *)
Lemma strip_trimmed (s : string) : trimmed s (Text.strip s).
Proof.
  unfold Text.strip.
  destruct (lstrip_trim s) as (l & El & Hl & Hfirst).
  destruct (rstrip_trim (Text.lstrip s)) as (r & Er & Hr & Hlast).
  exists l, r. split; [now rewrite <- Er | split; [exact Hl | split; [exact Hr|]]].
  split; [|exact Hlast].
  intros c rest H. apply (Hfirst c (rest ++ r)%string).
  rewrite Er at 1. now rewrite H.
Qed.

Lemma all_whitespace_app (a b : string) :
  all_whitespace (a ++ b) -> all_whitespace a /\ all_whitespace b.
Proof.
  induction a as [|x a IH]; simpl; intros H.
  - split; [constructor | exact H].
  - inversion H as [|? ? Hx Hab]; subst. destruct (IH Hab) as [Ha Hb].
    split; [now constructor | exact Hb].
Qed.

Lemma string_last (a : ascii) (s : string) :
  exists front x, String a s = (front ++ String x "")%string.
Proof.
  revert a; induction s as [|b s IH]; intros a.
  - now exists EmptyString, a.
  - destruct (IH b) as (front & x & E). exists (String a front), x.
    simpl. now rewrite E.
Qed.

(** A text that does not end with whitespace and lies in whitespace is
    empty. *)
Lemma whitespace_core_empty (c r : string) :
  all_whitespace (c ++ r) ->
  (forall front x, c = (front ++ String x "")%string -> ~ whitespace x) ->
  c = "".
Proof.
  intros Hws Hlast. destruct c as [|a c]; [reflexivity|]. exfalso.
  destruct (string_last a c) as (front & x & E).
  apply (Hlast front x E). rewrite E, append_assoc in Hws.
  apply all_whitespace_app in Hws. destruct Hws as [_ Hws].
  now inversion Hws.
Qed.

Lemma core_before_whitespace_unique (c1 c2 r1 r2 : string) :
  (c1 ++ r1)%string = (c2 ++ r2)%string ->
  all_whitespace r1 -> all_whitespace r2 ->
  (forall front x, c1 = (front ++ String x "")%string -> ~ whitespace x) ->
  (forall front x, c2 = (front ++ String x "")%string -> ~ whitespace x) ->
  c1 = c2.
Proof.
  revert c2; induction c1 as [|a c1 IH]; intros c2 E Hr1 Hr2 H1 H2.
  - simpl in E. symmetry. apply (whitespace_core_empty c2 r2); [|exact H2].
    now rewrite <- E.
  - destruct c2 as [|b c2].
    + simpl in E. apply (whitespace_core_empty (String a c1) r1); [|exact H1].
      simpl. now rewrite E.
    + simpl in E. injection E as -> E. f_equal.
      apply (IH c2 E Hr1 Hr2).
      * intros front x Hx. apply (H1 (String b front) x). simpl. now rewrite Hx.
      * intros front x Hx. apply (H2 (String b front) x). simpl. now rewrite Hx.
Qed.

(** A text has one core: what [trimmed] describes is determined. *)
Lemma trimmed_unique (s c1 c2 : string) :
  trimmed s c1 -> trimmed s c2 -> c1 = c2.
Proof.
  intros (l1 & r1 & E1 & Hl1 & Hr1 & Hf1 & Hb1)
         (l2 & r2 & E2 & Hl2 & Hr2 & Hf2 & Hb2).
  rewrite E1 in E2. clear E1 s.
  revert l2 Hl2 E2; induction Hl1 as [|x l1 Hx Hl1 IH]; intros l2 Hl2 E.
  - destruct Hl2 as [|y l2 Hy Hl2]; simpl in E.
    + now apply (core_before_whitespace_unique c1 c2 r1 r2).
    + destruct c1 as [|a c1]; simpl in E.
      * symmetry. apply (whitespace_core_empty c2 r2); [|exact Hb2].
        rewrite E in Hr1. inversion Hr1 as [|? ? _ Hrest]; subst.
        now apply all_whitespace_app in Hrest.
      * injection E as -> _. exfalso. exact (Hf1 y c1 eq_refl Hy).
  - destruct Hl2 as [|y l2 Hy Hl2]; simpl in E.
    + destruct c2 as [|a c2]; simpl in E.
      * apply (whitespace_core_empty c1 r1); [|exact Hb1].
        rewrite <- E in Hr2. inversion Hr2 as [|? ? _ Hrest]; subst.
        now apply all_whitespace_app in Hrest.
      * injection E as -> _. exfalso. exact (Hf2 a c2 eq_refl Hx).
    + injection E as _ E. now apply (IH l2).
Qed.




(** ** C10 *)

Lemma retrieve_gone (q : query) (pk : Z) (w : World) :
  gone pk (db w) -> valid_query q ->
  fst (action_retrieve q pk w) = Response_404.
Proof.
  intros (_ & _ & Hno) Hq. rewrite action_retrieve_run.
  rewrite (get_object_not_found q pk w Hq); [reflexivity|].
  intros x Hx E. exfalso. apply Hno. rewrite <- E. now apply in_map.
Qed.

Lemma gone_after_delete (r : RVM) (st : Store) :
  wf_store st -> In r (table st) ->
  gone (id r)
    (mkStore (filter (fun x => negb (id x =? id r)) (table st)) (seq st)).
Proof.
  intros Hwf Hin. split; [now apply wf_delete|]. simpl. split.
  - destruct Hwf as [_ Hle]. rewrite Forall_forall in Hle. now apply Hle.
  - intros H. apply in_map_iff in H. destruct H as (x & E & Hx).
    apply filter_In in Hx. destruct Hx as [_ Hx].
    now rewrite E, Z.eqb_refl in Hx.
Qed.

(** C10: delete on the identifier of an active record answers 204 and
    removes its row from the table; the identifier is then in no row, a
    retrieve of it answers 404, and this stays so whatever requests
    follow (the identifier is not handed out again).  Delete on the
    identifier of an inactive record answers 404 and leaves the database
    unchanged. *)
Theorem delete_is_permanent_and_needs_active
  (run_validation : bool -> field -> option prim -> field_result)
  (w : World) (r : RVM) :
  wf_store (db w) -> In r (table (db w)) ->
  (is_active r = true ->
   let w' := snd (action_destroy no_query (id r) w) in
   fst (action_destroy no_query (id r) w) = Response_204
   /\ db w' = mkStore (filter (fun x => negb (id x =? id r)) (table (db w)))
                (seq (db w))
   /\ ~ In (id r) (map id (table (db w')))
   /\ (forall q, valid_query q ->
                 fst (action_retrieve q (id r) w') = Response_404)
   /\ (forall reqs q,
         valid_query q ->
         ~ In (id r) (map id (table (db (serve run_validation reqs w'))))
         /\ fst (action_retrieve q (id r) (serve run_validation reqs w'))
            = Response_404))
  /\ (is_active r = false ->
      forall q, valid_query q ->
        fst (action_destroy q (id r) w) = Response_404
        /\ db (snd (action_destroy q (id r) w)) = db w).
Proof.
  intros Hwf Hin. split.
  - intros Hact w'.
    assert (Hrun : action_destroy no_query (id r) w
                   = (Response_204,
                      with_db (mkStore (filter (fun x => negb (id x =? id r))
                                          (table (db w))) (seq (db w))) w)).
    { now rewrite action_destroy_run, get_object_plain. }
    assert (Hgone : gone (id r) (db w')).
    { unfold w'. rewrite Hrun. simpl. now apply gone_after_delete. }
    split; [now rewrite Hrun|]. split; [unfold w'; now rewrite Hrun|].
    split; [apply Hgone|]. split.
    + intros q Hq. now apply retrieve_gone.
    + intros reqs q Hq.
      pose proof (gone_serve run_validation (id r) reqs w' Hgone) as Hg.
      split; [apply Hg | now apply retrieve_gone].
  - intros Hact q Hq. rewrite action_destroy_run.
    rewrite (get_object_not_found q (id r) w Hq).
    + split; [reflexivity|]. destruct (q_recent q) as [[|]|]; reflexivity.
    + now apply inactive_pk.
Qed.

Lemma example_world_wf : wf_store (db example_world).
Proof.
  split; simpl.
  - repeat constructor; simpl; intuition discriminate.
  - repeat constructor; simpl; discriminate.
Defined.

Lemma delete_is_permanent_and_needs_active_witness :
  fst (action_destroy no_query 2 example_world) = Response_204
  /\ fst (action_destroy no_query 3 example_world) = Response_404.
Proof.
  split.
  - apply (proj1 (delete_is_permanent_and_needs_active required_validation
                    example_world
                    (mkRVM 2 "RVM-2" "Alexandria" true (Some 90000000000))
                    example_world_wf
                    (or_intror (or_introl eq_refl)))).
    reflexivity.
  - apply (proj2 (delete_is_permanent_and_needs_active required_validation
                    example_world
                    (mkRVM 3 "RVM-3" "Giza" false (Some 95000000000))
                    example_world_wf
                    (or_intror (or_intror (or_introl eq_refl))))).
    + reflexivity.
    + reflexivity.
Defined.

(** ** C4 *)

(** C4: every field of the serializer is read-only, so no field is
    writable and the body of a write is never read.  A create, whatever
    its body, answers 201 and appends one record with the next
    identifier, name [""], location ["Cairo"], [is_active] true and
    [last_usage] null.  An update (PUT or PATCH), whatever its body,
    leaves the database as it was, and on an active record it answers
    200 with the record unchanged. *)
Theorem writes_ignore_the_body
  (run_validation : bool -> field -> option prim -> field_result) :
  _writable_fields = []
  /\ (forall body w,
        action_create run_validation body w
        = (Response_201
             (to_representation (mkRVM (seq (db w) + 1) "" "Cairo" true None)),
           with_db
             (mkStore
                (table (db w) ++ [mkRVM (seq (db w) + 1) "" "Cairo" true None])
                (seq (db w) + 1)) w))
  /\ (forall partial q pk body w,
        wf_store (db w) ->
        db (snd (action_update run_validation partial q pk body w)) = db w)
  /\ (forall partial r body w,
        wf_store (db w) -> In r (table (db w)) -> is_active r = true ->
        action_update run_validation partial no_query (id r) body w
        = (Response_200 (to_representation r), w)).
Proof.
  split; [reflexivity|]. split; [|split].
  - intros body w. apply action_create_run.
  - intros partial q pk body w. apply action_update_db.
  - intros partial r body w. apply action_update_plain.
Qed.

Lemma writes_ignore_the_body_witness :
  action_update required_validation false no_query 2
    [("name", PStr "renamed"); ("location", PStr "Giza");
     ("is_active", PBool false); ("last_usage", PDateTime 5)]
    example_world
  = (Response_200
       (to_representation (mkRVM 2 "RVM-2" "Alexandria" true (Some 90000000000))),
     example_world).
Proof.
  apply (proj2 (proj2 (proj2 (writes_ignore_the_body required_validation)))
           false (mkRVM 2 "RVM-2" "Alexandria" true (Some 90000000000))
           _ example_world example_world_wf).
  - right. left. reflexivity.
  - reflexivity.
Defined.

(** ** C1 *)

(** C1, as stated, fails: a PATCH of record 2 of the example with
    [is_active] false answers 200 with [is_active] still true, and
    afterwards the record is retrieved and listed as before. *)
Lemma update_is_active_false_counterexample :
  let body := [("is_active", PBool false)] in
  let r2 := mkRVM 2 "RVM-2" "Alexandria" true (Some 90000000000) in
  let w' := snd (action_update required_validation true no_query 2 body
                   example_world) in
  fst (action_update required_validation true no_query 2 body example_world)
  = Response_200 (to_representation r2)
  /\ fst (action_retrieve no_query 2 w') = Response_200 (to_representation r2)
  /\ fst (action_list no_query w')
     = Response_200_list
         (map to_representation
            [r2; mkRVM 4 "RVM-4" "New Cairo" true (Some 10000000000);
             mkRVM 1 "RVM-1" "Cairo" true None]).
Proof. repeat split. Qed.

(** C1, amended: for every active record, an update (PUT or PATCH),
    whatever its body and so also one that sets [is_active] false,
    succeeds and leaves the record as it was: it is still active, still
    retrieved and still listed.  A record that is inactive in the
    database is in no list response, and every retrieve, update or
    delete addressed to its identifier answers 404 and leaves the
    database unchanged. *)
Theorem update_cannot_deactivate
  (run_validation : bool -> field -> option prim -> field_result)
  (partial : bool) (body : data) (w : World) (r : RVM) :
  wf_store (db w) -> In r (table (db w)) ->
  (is_active r = true ->
   action_update run_validation partial no_query (id r) body w
   = (Response_200 (to_representation r), w)
   /\ get_value (to_representation r) "is_active" = Some (PBool true)
   /\ fst (action_retrieve no_query (id r) w)
      = Response_200 (to_representation r)
   /\ exists results,
        fst (action_list no_query w) = Response_200_list results
        /\ In (to_representation r) results)
  /\ (is_active r = false ->
      forall q, valid_query q ->
        (forall results,
           fst (action_list q w) = Response_200_list results ->
           ~ In (to_representation r) results)
        /\ fst (action_retrieve q (id r) w) = Response_404
        /\ fst (action_update run_validation partial q (id r) body w)
           = Response_404
        /\ fst (action_destroy q (id r) w) = Response_404
        /\ db (snd (action_update run_validation partial q (id r) body w))
           = db w
        /\ db (snd (action_destroy q (id r) w)) = db w).
Proof.
  intros Hwf Hin. split.
  - intros Hact. split; [now apply action_update_plain|].
    split; [simpl; now rewrite Hact|]. split.
    + now rewrite action_retrieve_run, get_object_plain.
    + eexists. split.
      * now rewrite (action_list_valid no_query "" "" w).
      * apply in_map, rows_where_In. split; [exact Hin|].
        simpl. now rewrite Hact.
  - intros Hact q Hq.
    pose proof (get_object_not_found q (id r) w Hq
                  (inactive_pk r (db w) Hwf Hin Hact)) as Hget.
    assert (Hdb : db (match q_recent q with Some true => tick w | _ => w end)
                  = db w) by (destruct (q_recent q) as [[|]|]; reflexivity).
    rewrite action_retrieve_run, action_update_run, action_destroy_run, Hget.
    simpl. repeat split; trivial.
    intros results Hres Hr.
    destruct (action_list_200 q w results Hres) as (cond & -> & Hc).
    apply in_map_iff in Hr. destruct Hr as (x & E & Hx).
    apply to_representation_inj in E. subst x.
    apply rows_where_In in Hx. rewrite (Hc r (proj2 Hx)) in Hact. discriminate.
Qed.

Lemma update_cannot_deactivate_witness :
  action_update required_validation true no_query 2
    [("is_active", PBool false)] example_world
  = (Response_200
       (to_representation (mkRVM 2 "RVM-2" "Alexandria" true (Some 90000000000))),
     example_world)
  /\ fst (action_update required_validation true no_query 3
            [("is_active", PBool false)] example_world) = Response_404.
Proof.
  split.
  - apply (proj1 (update_cannot_deactivate required_validation true
                    [("is_active", PBool false)] example_world
                    (mkRVM 2 "RVM-2" "Alexandria" true (Some 90000000000))
                    example_world_wf (or_intror (or_introl eq_refl)))).
    reflexivity.
  - apply (proj2 (update_cannot_deactivate required_validation true
                    [("is_active", PBool false)] example_world
                    (mkRVM 3 "RVM-3" "Giza" false (Some 95000000000))
                    example_world_wf
                    (or_intror (or_intror (or_introl eq_refl))))).
    + reflexivity.
    + reflexivity.
Defined.

(** What [get_object] answers when it does not find the object is an
    error response. *)
Lemma get_object_inl (q : query) (pk : Z) (w w' : World) (resp : response) :
  get_object q pk w = (inl resp, w') ->
  match resp with
  | Response_400 _ | Response_404 | Response_500 => True
  | _ => False
  end.
Proof.
  intros H. destruct (filterset_errors q) as [|e es] eqn:E.
  - destruct (valid_query_clean q E) as (a & b & Ha & Hb).
    rewrite (get_object_valid q a b pk w Ha Hb) in H.
    destruct (rows_where _ (db w)) as [|x [|y l]];
      try discriminate; now injection H as <- _.
  - rewrite get_object_invalid in H by (unfold valid_query; now rewrite E).
    now injection H as <- _.
Qed.

Lemma action_list_shape (q : query) (w : World) :
  match fst (action_list q w) with
  | Response_200_list _ | Response_400 _ => True
  | _ => False
  end.
Proof.
  destruct (filterset_errors q) as [|e es] eqn:E.
  - destruct (valid_query_clean q E) as (a & b & Ha & Hb).
    now rewrite (action_list_valid q a b w Ha Hb).
  - now rewrite action_list_invalid by (unfold valid_query; now rewrite E).
Qed.

(** ** C2 *)

(** C2, as stated, fails: a PUT that supplies all four input fields
    answers with the record as it was and changes nothing in the
    database, and a POST that supplies a name creates a record whose
    name is empty. *)
Lemma input_fields_are_not_applied_counterexample :
  let body := [("name", PStr "renamed"); ("location", PStr "Giza");
               ("is_active", PBool false); ("last_usage", PDateTime 5)] in
  fst (action_update required_validation false no_query 2 body example_world)
  = Response_200
      [("id", PInt 2); ("name", PStr "RVM-2"); ("location", PStr "Alexandria");
       ("is_active", PBool true); ("last_usage", PDateTime 90000000000)]
  /\ db (snd (action_update required_validation false no_query 2 body
                example_world))
     = db example_world
  /\ fst (action_create required_validation body example_world)
     = Response_201
         [("id", PInt 5); ("name", PStr ""); ("location", PStr "Cairo");
          ("is_active", PBool true); ("last_usage", PNull)].
Proof. repeat split. Qed.

(** C2, amended: every record in a response shows the five fields [id],
    [name], [location], [is_active], [last_usage], in this order, with
    the values of its row; on input no field is accepted: a create or an
    update does the same whatever its body holds, so none of [name],
    [location], [is_active], [last_usage] is applied and [id] cannot be
    set by the client: the identifier of a created record is the next
    value of the sequence, and an update changes no identifier. *)
Theorem serialization_contract
  (run_validation : bool -> field -> option prim -> field_result) :
  (forall r,
     to_representation r
     = [("id", PInt (id r)); ("name", PStr (name r));
        ("location", PStr (location r)); ("is_active", PBool (is_active r));
        ("last_usage", match last_usage r with
                       | Some t => PDateTime t
                       | None => PNull
                       end)])
  /\ (forall req w,
        match fst (urlpatterns run_validation req w) with
        | Response_200 d | Response_201 d => exists r, d = to_representation r
        | Response_200_list ds =>
            forall d, In d ds -> exists r, d = to_representation r
        | _ => True
        end)
  /\ (forall body w,
        action_create run_validation body w = action_create run_validation [] w)
  /\ (forall partial q pk body w,
        action_update run_validation partial q pk body w
        = action_update run_validation partial q pk [] w)
  /\ (forall body w,
        exists d w',
          action_create run_validation body w = (Response_201 d, w')
          /\ get_value d "id" = Some (PInt (seq (db w) + 1)))
  /\ (forall partial q pk body w,
        wf_store (db w) ->
        map id (table (db (snd (action_update run_validation partial q pk
                                  body w))))
        = map id (table (db w))).
Proof.
  split; [reflexivity|]. split; [|split; [|split; [|split]]].
  - intros req w.
    destruct req as [q | body | q pk | q pk body | q pk body | q pk];
      unfold urlpatterns.
    + pose proof (action_list_shape q w) as Hs.
      destruct (fst (action_list q w)) as [ds| | | | | |] eqn:E; try easy.
      destruct (action_list_200 q w ds E) as (cond & -> & _).
      intros d Hd. apply in_map_iff in Hd. destruct Hd as (r & <- & _).
      now exists r.
    + rewrite action_create_run. simpl. now eexists.
    + rewrite action_retrieve_run.
      destruct (get_object q pk w) as [[resp | o] w'] eqn:G; simpl.
      * pose proof (get_object_inl _ _ _ _ _ G). now destruct resp.
      * now exists o.
    + rewrite action_update_run.
      destruct (get_object q pk w) as [[resp | o] w'] eqn:G; simpl.
      * pose proof (get_object_inl _ _ _ _ _ G). now destruct resp.
      * now exists o.
    + rewrite action_update_run.
      destruct (get_object q pk w) as [[resp | o] w'] eqn:G; simpl.
      * pose proof (get_object_inl _ _ _ _ _ G). now destruct resp.
      * now exists o.
    + rewrite action_destroy_run.
      destruct (get_object q pk w) as [[resp | o] w'] eqn:G; simpl.
      * pose proof (get_object_inl _ _ _ _ _ G). now destruct resp.
      * trivial.
  - intros body w. now rewrite !action_create_run.
  - intros partial q pk body w. now rewrite !action_update_run.
  - intros body w. rewrite action_create_run. now do 2 eexists.
  - intros partial q pk body w Hwf. now rewrite action_update_db.
Qed.

Lemma serialization_contract_witness :
  map id (table (db (snd (action_update required_validation false no_query 2
                            [("id", PInt 9)] example_world))))
  = map id (table (db example_world)).
Proof.
  apply (proj2 (proj2 (proj2 (proj2 (proj2
           (serialization_contract required_validation)))))
           false no_query 2 [("id", PInt 9)] example_world example_world_wf).
Defined.

(** ** C3 *)

(** C3, as stated, fails: a POST with an empty body, even under a
    validation that would require every writable field, answers 201 and
    a record is created. *)
Lemma create_without_name_counterexample :
  fst (action_create required_validation [] example_world)
  = Response_201
      [("id", PInt 5); ("name", PStr ""); ("location", PStr "Cairo");
       ("is_active", PBool true); ("last_usage", PNull)]
  /\ table (db (snd (action_create required_validation [] example_world)))
     = (example_rows ++ [mkRVM 5 "" "Cairo" true None])%list.
Proof. split; reflexivity. Qed.

(** C3, amended: a create (POST) never fails validation, whether its
    body supplies [name] or omits it: it answers 201, never 400, and one
    record is created, with the next identifier, the name [""] (a name
    supplied is not stored), location ["Cairo"], [is_active] true and
    [last_usage] null. *)
Theorem create_always_succeeds_with_defaults
  (run_validation : bool -> field -> option prim -> field_result)
  (body : data) (w : World) :
  let pk := seq (db w) + 1 in
  fst (action_create run_validation body w)
  = Response_201
      [("id", PInt pk); ("name", PStr ""); ("location", PStr "Cairo");
       ("is_active", PBool true); ("last_usage", PNull)]
  /\ table (db (snd (action_create run_validation body w)))
     = (table (db w) ++ [mkRVM pk "" "Cairo" true None])%list
  /\ seq (db (snd (action_create run_validation body w))) = pk
  /\ forall errors,
       fst (action_create run_validation body w) <> Response_400 errors.
Proof.
  intros pk. rewrite action_create_run. simpl.
  repeat split. discriminate.
Qed.

(* ================================================================== *)
(** * Further properties of the application *)

(** ** models.py: [__str__] *)

Lemma append_inv_paren (s1 s2 : string) :
  (s1 ++ ")")%string = (s2 ++ ")")%string -> s1 = s2.
Proof.
  revert s2; induction s1 as [|c s1 IH]; intros [|c' s2] H; simpl in H.
  - reflexivity.
  - injection H as _ H. destruct s2; discriminate.
  - injection H as _ H. destruct s1; discriminate.
  - injection H as -> H. f_equal. now apply IH.
Qed.

(** A text without ["("] in front of [" ("]: the first ["("] tells where
    the text ends. *)
Lemma split_at_paren (n1 n2 t1 t2 : string) :
  has_char "(" n1 = false -> has_char "(" n2 = false ->
  (n1 ++ " (" ++ t1)%string = (n2 ++ " (" ++ t2)%string ->
  n1 = n2 /\ t1 = t2.
Proof.
  revert n2; induction n1 as [|c n1 IH]; intros [|c' n2] H1 H2 H; simpl in *.
  - injection H as H. now split.
  - injection H as <- H. destruct n2 as [|x n2]; simpl in *.
    + discriminate.
    + injection H as <- _. discriminate.
  - injection H as -> H. destruct n1 as [|x n1]; simpl in *.
    + discriminate.
    + injection H as -> _. discriminate.
  - injection H as -> H.
    apply orb_false_iff in H1. apply orb_false_iff in H2.
    destruct (IH n2 (proj2 H1) (proj2 H2) H) as [-> ->]. now split.
Qed.

(** X1: the text [__str__] shows for a machine tells its name and its
    location apart as long as names hold no opening parenthesis: two
    such machines with the same text have the same name and the same
    location.  With a parenthesis in a name it need not: the names
    ["a (b"] and ["a"], with locations ["c"] and ["b (c"], show the same
    text. *)
Theorem str_tells_name_and_location :
  (forall a b : RVM,
     has_char "(" (name a) = false -> has_char "(" (name b) = false ->
     __str__ a = __str__ b ->
     name a = name b /\ location a = location b)
  /\ __str__ (mkRVM 1 "a (b" "c" true None)
     = __str__ (mkRVM 2 "a" "b (c" true None).
Proof.
  split; [|reflexivity].
  intros a b Ha Hb H. unfold __str__ in H.
  destruct (split_at_paren _ _ _ _ Ha Hb H) as [Hn Hl].
  split; [exact Hn | now apply append_inv_paren].
Qed.

Lemma str_tells_name_and_location_witness :
  name (mkRVM 1 "RVM-1" "Cairo" true None)
  = name (mkRVM 7 "RVM-1" "Cairo" false (Some 3))
  /\ location (mkRVM 1 "RVM-1" "Cairo" true None)
     = location (mkRVM 7 "RVM-1" "Cairo" false (Some 3)).
Proof.
  apply (proj1 str_tells_name_and_location
           (mkRVM 1 "RVM-1" "Cairo" true None)
           (mkRVM 7 "RVM-1" "Cairo" false (Some 3)));
    reflexivity.
Defined.

(** ** serializers.py: the representation *)

(** X2: the representation loses nothing and adds nothing: rows with the
    same representation are the same row; under the name of each model
    field it holds the value of that field, and under any other key it
    holds nothing. *)
Theorem representation_is_lossless :
  (forall a b, to_representation a = to_representation b -> a = b)
  /\ (forall r f,
        get_value (to_representation r) (field_name f) = Some (getattr r f))
  /\ (forall r key,
        (forall f, field_name f <> key) ->
        get_value (to_representation r) key = None).
Proof.
  split; [exact to_representation_inj | split].
  - intros r f. destruct f; reflexivity.
  - intros r key Hkey. unfold to_representation.
    induction Meta_fields as [|f fs IH]; [reflexivity|].
    cbn [map get_value].
    destruct (String.eqb_spec (field_name f) key) as [E|_];
      [exfalso; exact (Hkey f E) | exact IH].
Qed.

Lemma representation_is_lossless_witness :
  get_value (to_representation (blank_rvm 1)) "status" = None.
Proof.
  apply (proj2 (proj2 representation_is_lossless) (blank_rvm 1) "status").
  intros f. destruct f; discriminate.
Defined.

(** ** urls.py and views.py: what every request keeps *)

Lemma wf_serve run_validation (reqs : list request) (w : World) :
  wf_store (db w) -> wf_store (db (serve run_validation reqs w)).
Proof.
  revert w; induction reqs as [|req reqs IH]; intros w H; simpl; [exact H|].
  apply IH. now apply wf_urlpatterns.
Qed.

Lemma wf_empty (clk : nat -> Z) : wf_store (db (empty_world clk)).
Proof. split; simpl; constructor. Qed.

(** X3: [id] stays a primary key.  Whatever requests are served, starting
    from a table where identifiers are distinct and at most the value of
    the sequence (the empty database is one), the table is again such a
    table. *)
Theorem requests_keep_primary_key
  (run_validation : bool -> field -> option prim -> field_result)
  (reqs : list request) :
  (forall w, wf_store (db w) -> wf_store (db (serve run_validation reqs w)))
  /\ (forall clk,
        NoDup (map id (table (db (serve run_validation reqs (empty_world clk)))))).
Proof.
  split.
  - intros w. apply wf_serve.
  - intros clk. apply (wf_serve run_validation reqs _ (wf_empty clk)).
Qed.

Lemma requests_keep_primary_key_witness :
  wf_store
    (db (serve required_validation
           [POST_rvms []; DELETE_rvm no_query 2; POST_rvms []] example_world)).
Proof.
  apply (proj1 (requests_keep_primary_key required_validation
                  [POST_rvms []; DELETE_rvm no_query 2; POST_rvms []])).
  exact example_world_wf.
Defined.

Lemma filter_pk_at_most_one (p : RVM -> bool) (pk : Z) (l : list RVM) :
  NoDup (map id l) -> (forall x, p x = true -> id x = pk) ->
  filter p l = [] \/ exists r, filter p l = [r].
Proof.
  intros Hnd Hp. destruct (filter p l) as [|r rest] eqn:E; [now left|].
  right. exists r. rewrite <- E.
  assert (Hr : In r (filter p l)) by (rewrite E; now left).
  apply filter_In in Hr. destruct Hr as [Hin Hpr].
  apply filter_pk; trivial.
  intros x Hx. now rewrite (Hp x Hx), (Hp r Hpr).
Qed.

Lemma get_object_no_500 (q : query) (pk : Z) (w w' : World) :
  wf_store (db w) -> get_object q pk w <> (inl Response_500, w').
Proof.
  intros [Hnd _] H. destruct (filterset_errors q) as [|e es] eqn:E.
  - destruct (valid_query_clean q E) as (a & b & Ha & Hb).
    rewrite (get_object_valid q a b pk w Ha Hb) in H. unfold rows_where in H.
    destruct (filter_pk_at_most_one
                (fun r => is_active r
                   && (admits_location a r && admits_loc b r
                       && admits_recent (q_recent q) (clock w (reads w)) r)
                   && (id r =? pk)) pk (table (db w)) Hnd) as [F | [r F]].
    + intros x Hx. apply andb_true_iff in Hx. now apply Z.eqb_eq.
    + rewrite F in H. discriminate.
    + rewrite F in H. discriminate.
  - rewrite get_object_invalid in H by (unfold valid_query; now rewrite E).
    discriminate.
Qed.

(** X4: under the primary key no request is answered with a 500: the
    lookup of a detail route never finds two rows, neither at once nor
    after any sequence of requests. *)
Theorem no_request_fails
  (run_validation : bool -> field -> option prim -> field_result)
  (reqs : list request) (req : request) (w : World) :
  wf_store (db w) ->
  fst (urlpatterns run_validation req (serve run_validation reqs w))
  <> Response_500.
Proof.
  intros Hwf0.
  pose proof (wf_serve run_validation reqs w Hwf0) as Hwf.
  set (w1 := serve run_validation reqs w) in *. clearbody w1.
  destruct req as [q | body | q pk | q pk body | q pk body | q pk];
    unfold urlpatterns.
  - pose proof (action_list_shape q w1) as Hs.
    now destruct (fst (action_list q w1)).
  - now rewrite action_create_run.
  - rewrite action_retrieve_run.
    destruct (get_object q pk w1) as [[resp | o] w'] eqn:G; simpl; [|easy].
    intros ->. now apply (get_object_no_500 q pk w1 w').
  - rewrite action_update_run.
    destruct (get_object q pk w1) as [[resp | o] w'] eqn:G; simpl; [|easy].
    intros ->. now apply (get_object_no_500 q pk w1 w').
  - rewrite action_update_run.
    destruct (get_object q pk w1) as [[resp | o] w'] eqn:G; simpl; [|easy].
    intros ->. now apply (get_object_no_500 q pk w1 w').
  - rewrite action_destroy_run.
    destruct (get_object q pk w1) as [[resp | o] w'] eqn:G; simpl; [|easy].
    intros ->. now apply (get_object_no_500 q pk w1 w').
Qed.

Lemma no_request_fails_witness :
  fst (urlpatterns required_validation (GET_rvm no_query 5)
         (serve required_validation [POST_rvms []] example_world))
  <> Response_500.
Proof.
  apply (no_request_fails required_validation [POST_rvms []]
           (GET_rvm no_query 5) example_world example_world_wf).
Defined.

Lemma action_list_world (q : query) (w : World) :
  snd (action_list q w) = w \/ snd (action_list q w) = tick w.
Proof.
  destruct (filterset_errors q) as [|e es] eqn:E.
  - destruct (valid_query_clean q E) as (a & b & Ha & Hb).
    rewrite (action_list_valid q a b w Ha Hb). simpl.
    destruct (q_recent q) as [[|]|]; auto.
  - rewrite action_list_invalid by (unfold valid_query; now rewrite E).
    now left.
Qed.

Lemma get_object_world (q : query) (pk : Z) (w : World) :
  snd (get_object q pk w) = w \/ snd (get_object q pk w) = tick w.
Proof.
  destruct (filterset_errors q) as [|e es] eqn:E.
  - destruct (valid_query_clean q E) as (a & b & Ha & Hb).
    rewrite (get_object_valid q a b pk w Ha Hb). simpl.
    destruct (q_recent q) as [[|]|]; auto.
  - rewrite get_object_invalid by (unfold valid_query; now rewrite E).
    now left.
Qed.

(** X5: a [GET], on the collection or on one identifier and whatever
    its query parameters, changes nothing in the database; all it may
    do is read the clock, once. *)
Theorem get_requests_only_read
  (run_validation : bool -> field -> option prim -> field_result)
  (req : request) (w : World) :
  is_get req = true ->
  db (snd (urlpatterns run_validation req w)) = db w
  /\ (snd (urlpatterns run_validation req w) = w
      \/ snd (urlpatterns run_validation req w) = tick w).
Proof.
  destruct req as [q | body | q pk | q pk body | q pk body | q pk];
    try discriminate; intros _; unfold urlpatterns.
  - split; [apply action_list_db | apply action_list_world].
  - rewrite action_retrieve_run.
    pose proof (get_object_db q pk w) as Hdb.
    pose proof (get_object_world q pk w) as Hw.
    now destruct (get_object q pk w) as [[resp | o] w'].
Qed.

Lemma get_requests_only_read_witness :
  db (snd (urlpatterns required_validation
             (GET_rvms (mkQuery None (Some "alex") (Some true)))
             example_world))
  = db example_world.
Proof.
  apply (get_requests_only_read required_validation
           (GET_rvms (mkQuery None (Some "alex") (Some true)))
           example_world).
  reflexivity.
Defined.

(** ** Identifiers *)

Lemma urlpatterns_seq run_validation (req : request) (w : World) :
  wf_store (db w) ->
  seq (db (snd (urlpatterns run_validation req w)))
  = seq (db w) + posts [req].
Proof.
  intros Hwf.
  destruct req as [q | body | q pk | q pk body | q pk body | q pk];
    unfold urlpatterns; simpl posts; rewrite ?Z.add_0_r.
  - now rewrite action_list_db.
  - rewrite action_create_run. simpl. lia.
  - rewrite action_retrieve_run.
    pose proof (get_object_db q pk w) as H.
    destruct (get_object q pk w) as [[resp | o] w']; simpl in *; now rewrite H.
  - now rewrite action_update_db.
  - now rewrite action_update_db.
  - rewrite action_destroy_run.
    pose proof (get_object_db q pk w) as H.
    destruct (get_object q pk w) as [[resp | o] w']; simpl in *; now rewrite H.
Qed.

(** X6: identifiers are handed out once.  The sequence advances by one
    with every [POST] and with nothing else, so after a sequence of
    requests it has advanced by the number of its [POST]s; a create gets
    an identifier above that of every row of the table, and the create
    after it gets the next one. *)
Theorem identifiers_are_handed_out_once
  (run_validation : bool -> field -> option prim -> field_result)
  (w : World) :
  wf_store (db w) ->
  (forall reqs,
     seq (db (serve run_validation reqs w)) = seq (db w) + posts reqs)
  /\ (forall body body',
        let w1 := snd (action_create run_validation body w) in
        exists d1 d2,
          fst (action_create run_validation body w) = Response_201 d1
          /\ fst (action_create run_validation body' w1) = Response_201 d2
          /\ get_value d1 "id" = Some (PInt (seq (db w) + 1))
          /\ get_value d2 "id" = Some (PInt (seq (db w) + 2))
          /\ forall r, In r (table (db w)) -> id r < seq (db w) + 1).
Proof.
  intros Hwf. split.
  - intros reqs. revert w Hwf.
    induction reqs as [|req reqs IH]; intros w Hwf; [simpl; lia|].
    change (serve run_validation (req :: reqs) w)
      with (serve run_validation reqs (snd (urlpatterns run_validation req w))).
    rewrite IH by now apply wf_urlpatterns.
    rewrite urlpatterns_seq by exact Hwf.
    destruct req; cbn [posts]; lia.
  - intros body body' w1. unfold w1. rewrite !action_create_run.
    do 2 eexists. repeat split.
    + simpl. do 2 f_equal. lia.
    + intros r Hr. destruct Hwf as [_ Hle]. rewrite Forall_forall in Hle.
      specialize (Hle r Hr). lia.
Qed.

Lemma identifiers_are_handed_out_once_witness :
  seq (db (serve required_validation
             [POST_rvms []; GET_rvms no_query; DELETE_rvm no_query 5;
              POST_rvms [("id", PInt 5)]] example_world))
  = seq (db example_world) + 2.
Proof.
  apply (proj1 (identifiers_are_handed_out_once required_validation
                  example_world example_world_wf)
           [POST_rvms []; GET_rvms no_query; DELETE_rvm no_query 5;
            POST_rvms [("id", PInt 5)]]).
Defined.

(** X7: what a create answers is what a retrieve of the new identifier
    answers afterwards, and the unfiltered list then holds it. *)
Theorem created_record_is_retrievable
  (run_validation : bool -> field -> option prim -> field_result)
  (body : data) (w : World) :
  wf_store (db w) ->
  let w1 := snd (action_create run_validation body w) in
  exists d,
    fst (action_create run_validation body w) = Response_201 d
    /\ get_value d "id" = Some (PInt (seq (db w) + 1))
    /\ action_retrieve no_query (seq (db w) + 1) w1 = (Response_200 d, w1)
    /\ exists results,
         fst (action_list no_query w1) = Response_200_list results
         /\ In d results.
Proof.
  intros Hwf w1. unfold w1. rewrite action_create_run. cbn [fst snd].
  set (pk := seq (db w) + 1).
  set (w' := with_db (mkStore (table (db w) ++ [blank_rvm pk]) pk) w).
  assert (Hwf' : wf_store (db w')) by (apply wf_insert; exact Hwf).
  assert (Hin : In (blank_rvm pk) (table (db w')))
    by (simpl; apply in_or_app; right; now left).
  eexists. split; [reflexivity|]. split; [reflexivity|]. split.
  - rewrite action_retrieve_run.
    pose proof (get_object_plain (blank_rvm pk) w' Hwf' Hin eq_refl) as G.
    cbn [id blank_rvm] in G. now rewrite G.
  - eexists. split.
    + now rewrite (action_list_valid no_query "" "" w').
    + apply in_map, rows_where_In. now split.
Qed.

Lemma created_record_is_retrievable_witness :
  exists d,
    fst (action_create required_validation [("name", PStr "x")] example_world)
    = Response_201 d
    /\ get_value d "id" = Some (PInt 5).
Proof.
  destruct (created_record_is_retrievable required_validation
              [("name", PStr "x")] example_world example_world_wf)
    as (d & H1 & H2 & _).
  now exists d.
Defined.

(** X8: a delete touches one identifier only.  After the delete of an
    active record every other row is still in the table, a retrieve of
    any other identifier answers what it answered before, and a second
    delete of the same identifier answers 404. *)
Theorem delete_leaves_the_others (w : World) (r x : RVM) :
  wf_store (db w) -> In r (table (db w)) -> is_active r = true ->
  In x (table (db w)) -> id x <> id r ->
  let w' := snd (action_destroy no_query (id r) w) in
  In x (table (db w'))
  /\ fst (action_retrieve no_query (id x) w')
     = fst (action_retrieve no_query (id x) w)
  /\ fst (action_destroy no_query (id r) w') = Response_404.
Proof.
  intros Hwf Hr Hact Hx Hne w'.
  assert (Hrun : action_destroy no_query (id r) w
                 = (Response_204,
                    with_db (mkStore (filter (fun y => negb (id y =? id r))
                                        (table (db w))) (seq (db w))) w)).
  { now rewrite action_destroy_run, get_object_plain. }
  assert (Hgone : gone (id r) (db w')).
  { unfold w'. rewrite Hrun. simpl. now apply gone_after_delete. }
  assert (Hwf' : wf_store (db w')) by apply Hgone.
  assert (Hx' : In x (table (db w'))).
  { unfold w'. rewrite Hrun. simpl. apply filter_In. split; [exact Hx|].
    now destruct (Z.eqb_spec (id x) (id r)). }
  split; [exact Hx' | split].
  - rewrite !action_retrieve_run. destruct (is_active x) eqn:Ex.
    + now rewrite !get_object_plain.
    + rewrite !(get_object_not_found no_query) by
        (try reflexivity; now apply inactive_pk).
      reflexivity.
  - rewrite action_destroy_run.
    rewrite (get_object_not_found no_query); [reflexivity | reflexivity |].
    intros y Hy E. exfalso. destruct Hgone as (_ & _ & Hno).
    apply Hno. rewrite <- E. now apply in_map.
Qed.

Lemma delete_leaves_the_others_witness :
  fst (action_retrieve no_query 4
         (snd (action_destroy no_query 2 example_world)))
  = fst (action_retrieve no_query 4 example_world).
Proof.
  apply (delete_leaves_the_others example_world
           (mkRVM 2 "RVM-2" "Alexandria" true (Some 90000000000))
           (mkRVM 4 "RVM-4" "New Cairo" true (Some 10000000000))
           example_world_wf).
  - right. left. reflexivity.
  - reflexivity.
  - right. right. right. left. reflexivity.
  - discriminate.
Defined.

(** ** What the endpoint can store *)

Lemma pristine_urlpatterns run_validation (req : request) (w : World) :
  wf_store (db w) -> pristine (db w) ->
  pristine (db (snd (urlpatterns run_validation req w))).
Proof.
  intros Hwf Hp. unfold pristine in *.
  destruct (urlpatterns_db run_validation req w Hwf) as [-> | [-> | [pk ->]]];
    simpl.
  - exact Hp.
  - apply Forall_app. split; [exact Hp | now repeat constructor].
  - rewrite Forall_forall in *. intros x Hx. apply filter_In in Hx.
    apply Hp, Hx.
Qed.

Lemma pristine_serve run_validation (reqs : list request) (w : World) :
  wf_store (db w) -> pristine (db w) ->
  pristine (db (serve run_validation reqs w)).
Proof.
  revert w; induction reqs as [|req reqs IH]; intros w Hwf Hp; [exact Hp|].
  simpl. apply IH; [now apply wf_urlpatterns | now apply pristine_urlpatterns].
Qed.

(** X9: through the endpoint alone no record ever gets a name, another
    location, a [last_usage], or becomes inactive.  After any requests
    on an empty database every row has the name [""], the location
    ["Cairo"], is active and has no [last_usage]; so a list with
    [recent=true] is then empty. *)
Theorem endpoint_stores_only_defaults
  (run_validation : bool -> field -> option prim -> field_result)
  (reqs : list request) (clk : nat -> Z) :
  let w := serve run_validation reqs (empty_world clk) in
  (forall r, In r (table (db w)) ->
             name r = "" /\ location r = "Cairo"
             /\ is_active r = true /\ last_usage r = None)
  /\ (forall q, valid_query q -> q_recent q = Some true ->
                fst (action_list q w) = Response_200_list []).
Proof.
  intros w.
  assert (Hp : pristine (db w)).
  { apply pristine_serve; [apply wf_empty | constructor]. }
  unfold pristine in Hp. rewrite Forall_forall in Hp. split.
  - intros r Hr. rewrite (Hp r Hr). repeat split.
  - intros q Hq Hrec. destruct (valid_query_clean q Hq) as (a & b & Ha & Hb).
    rewrite (action_list_valid q a b w Ha Hb), Hrec. simpl.
    unfold rows_where. rewrite filter_none; [reflexivity|].
    intros r Hr. rewrite (Hp r Hr). unfold used_since. simpl.
    now rewrite !andb_false_r.
Qed.

Lemma endpoint_stores_only_defaults_witness :
  fst (action_list (mkQuery None (Some "cairo") (Some true))
         (serve required_validation
            [POST_rvms [("last_usage", PDateTime 5)];
             PATCH_rvm no_query 1 [("last_usage", PDateTime 5)]]
            (empty_world (fun _ => 6))))
  = Response_200_list [].
Proof.
  apply (proj2 (endpoint_stores_only_defaults required_validation
                  [POST_rvms [("last_usage", PDateTime 5)];
                   PATCH_rvm no_query 1 [("last_usage", PDateTime 5)]]
                  (fun _ => 6))); reflexivity.
Defined.

(** ** views.py: RVMFilter, further *)

Lemma filter_length_le {A : Type} (p q : A -> bool) (l : list A) :
  (forall x, p x = true -> q x = true) ->
  (List.length (filter p l) <= List.length (filter q l))%nat.
Proof.
  intros H. induction l as [|a l IH]; simpl; [lia|].
  destruct (p a) eqn:E.
  - rewrite (H a E). simpl. lia.
  - destruct (q a); simpl; lia.
Qed.

Lemma rows_where_length (cond : RVM -> bool) (st : Store) :
  List.length (rows_where cond st) = List.length (filter cond (table st)).
Proof.
  unfold rows_where. symmetry. apply Permutation_length, order_by_perm.
Qed.

(** X10: filters only remove.  Whatever the query parameters, every
    record of a list response is in the response of the list without
    parameters, which is at least as long. *)
Theorem filters_only_remove (q : query) (w : World) (results : list data) :
  fst (action_list q w) = Response_200_list results ->
  exists everything,
    fst (action_list no_query w) = Response_200_list everything
    /\ incl results everything
    /\ (List.length results <= List.length everything)%nat.
Proof.
  intros H. destruct (action_list_200 q w results H) as (cond & -> & Hc).
  eexists. split; [now rewrite (action_list_valid no_query "" "" w)|]. split.
  - intros d Hd. apply in_map_iff in Hd. destruct Hd as (r & <- & Hr).
    apply rows_where_In in Hr. apply in_map, rows_where_In.
    split; [apply Hr|]. simpl. now rewrite (Hc r (proj2 Hr)).
  - rewrite !length_map, !rows_where_length. apply filter_length_le.
    intros x Hx. simpl. now rewrite (Hc x Hx).
Qed.

Lemma filters_only_remove_witness :
  exists everything,
    fst (action_list no_query example_world) = Response_200_list everything
    /\ incl [to_representation
               (mkRVM 2 "RVM-2" "Alexandria" true (Some 90000000000))]
         everything
    /\ (1 <= List.length everything)%nat.
Proof.
  apply (filters_only_remove (mkQuery None (Some "alex") None) example_world).
  reflexivity.
Defined.

(** X11: the window of [recent] is bounded below only, and it moves with
    the clock.  A record used after the time of the request, however
    far in the future, is listed; and of two requests with
    [recent=true] and otherwise the same parameters on the same
    database, the one made at the later time lists no record that the
    earlier one does not list. *)
Theorem recent_window_moves_with_the_clock (q : query) (w1 w2 : World) :
  valid_query q -> q_recent q = Some true ->
  db w1 = db w2 -> clock w1 (reads w1) <= clock w2 (reads w2) ->
  (exists results1 results2,
     fst (action_list q w1) = Response_200_list results1
     /\ fst (action_list q w2) = Response_200_list results2
     /\ incl results2 results1)
  /\ (forall r t,
        In r (table (db w1)) -> is_active r = true ->
        last_usage r = Some t -> clock w1 (reads w1) <= t ->
        exists results,
          fst (action_list (mkQuery None None (Some true)) w1)
          = Response_200_list results
          /\ In (to_representation r) results).
Proof.
  intros Hq Hrec Hdb Hle. destruct (valid_query_clean q Hq) as (a & b & Ha & Hb).
  split.
  - do 2 eexists.
    rewrite (action_list_valid q a b w1 Ha Hb), (action_list_valid q a b w2 Ha Hb).
    split; [reflexivity | split; [reflexivity|]].
    intros d Hd. apply in_map_iff in Hd. destruct Hd as (r & <- & Hr).
    apply in_map. rewrite rows_where_In in *. rewrite Hdb.
    destruct Hr as [Hin Hc]. split; [exact Hin|].
    rewrite Hrec in *. simpl in *. rewrite !andb_true_iff in *.
    destruct Hc as (Hact & (Hloc & Hsub) & Hu). repeat split; trivial.
    unfold used_since in *. destruct (last_usage r); [|discriminate].
    rewrite Z.leb_le in *. lia.
  - intros r t Hin Hact Ht Hfut. eexists.
    rewrite (action_list_valid (mkQuery None None (Some true)) "" "" w1)
      by reflexivity.
    split; [reflexivity|]. apply in_map, rows_where_In. split; [exact Hin|].
    simpl. unfold used_since. rewrite Hact, Ht, timedelta_24h. simpl.
    apply Z.leb_le. lia.
Qed.

Lemma recent_window_moves_with_the_clock_witness :
  exists results1 results2,
    fst (action_list (mkQuery None None (Some true)) example_world)
    = Response_200_list results1
    /\ fst (action_list (mkQuery None None (Some true))
              (mkWorld (db example_world) (fun _ => 200000000000) 0))
       = Response_200_list results2
    /\ incl results2 results1.
Proof.
  apply (recent_window_moves_with_the_clock (mkQuery None None (Some true))
           example_world
           (mkWorld (db example_world) (fun _ => 200000000000) 0)).
  - reflexivity.
  - reflexivity.
  - reflexivity.
  - simpl. lia.
Defined.

Lemma admits_location_loc (v : string) (r : RVM) :
  admits_location v r = true -> admits_loc v r = true.
Proof.
  rewrite admits_location_spec, admits_loc_spec. intros [H | H]; [now left|].
  right. exists EmptyString, (location r), EmptyString.
  rewrite append_nil_r. now rewrite H.
Qed.

(** X12: the [location] parameter, the filter generated for the field
    name in [Meta.fields], is an exact match on the stripped value.  For
    a value without null character, with [core] the value without its
    surrounding whitespace, the list is exactly the active rows whose
    location is [core], letter case included (all active rows when
    [core] is blank), and each of them is also listed when the same
    value is given as [loc]; a value with a null character is refused
    with a 400 that names [location]. *)
Theorem location_filter_is_exact (s : string) (w : World) :
  (Text.has_nul s = true ->
   action_list (mkQuery (Some s) None None) w
   = (Response_400 [("location", "Null characters are not allowed.")], w))
  /\ (Text.has_nul s = false ->
      exists core rows rows',
        trimmed s core
        /\ action_list (mkQuery (Some s) None None) w
           = (Response_200_list (map to_representation rows), w)
        /\ (forall r, In r rows
                      <-> In r (table (db w)) /\ is_active r = true
                          /\ (core = "" \/ location r = core))
        /\ action_list (mkQuery None (Some s) None) w
           = (Response_200_list (map to_representation rows'), w)
        /\ incl rows rows').
Proof.
  split.
  - intros Hs. rewrite action_list_invalid.
    + unfold filterset_errors. simpl. now rewrite has_nul_strip, Hs.
    + unfold valid_query, filterset_errors. simpl.
      now rewrite has_nul_strip, Hs.
  - intros Hs.
    assert (Hc : CharField_clean (Some s) = Some (Text.strip s))
      by (simpl; now rewrite has_nul_strip, Hs).
    exists (Text.strip s). do 2 eexists. split; [apply strip_trimmed|].
    rewrite (action_list_valid (mkQuery (Some s) None None) (Text.strip s) "" w)
      by (trivial; reflexivity).
    rewrite (action_list_valid (mkQuery None (Some s) None) "" (Text.strip s) w)
      by (trivial; reflexivity).
    split; [reflexivity|]. split; [|split; [reflexivity|]].
    + intros r. rewrite rows_where_In. simpl.
      rewrite !andb_true_r, andb_true_iff, admits_location_spec. tauto.
    + intros r. rewrite !rows_where_In. simpl.
      rewrite !andb_true_r, !andb_true_iff.
      intros (Hin & Hact & Hloc). auto using admits_location_loc.
Qed.

Lemma location_filter_is_exact_witness :
  exists rows rows',
    action_list (mkQuery (Some " Cairo ") None None) example_world
    = (Response_200_list (map to_representation rows), example_world)
    /\ (forall r, In r rows
                  <-> In r (table (db example_world)) /\ is_active r = true
                      /\ ("Cairo" = "" \/ location r = "Cairo"))
    /\ action_list (mkQuery None (Some " Cairo ") None) example_world
       = (Response_200_list (map to_representation rows'), example_world)
    /\ incl rows rows'.
Proof.
  destruct (proj2 (location_filter_is_exact " Cairo " example_world) eq_refl)
    as (core & rows & rows' & T & E & Hiff & E' & Hincl).
  assert (Hcore : core = "Cairo")
    by exact (trimmed_unique _ _ _ T (strip_trimmed " Cairo ")).
  subst core. exists rows, rows'.
  split; [exact E | split; [exact Hiff | split; [exact E' | exact Hincl]]].
Defined.

Lemma lower_char_nul (c : ascii) :
  Ascii.eqb (Text.lower_char c) zero = Ascii.eqb c zero.
Proof. destruct c as [[] [] [] [] [] [] [] []]; reflexivity. Qed.

Lemma has_nul_lower (s : string) : Text.has_nul (Text.lower s) = Text.has_nul s.
Proof.
  induction s as [|c s IH]; simpl; [reflexivity|].
  now rewrite lower_char_nul, IH.
Qed.

(** X13: the value of [loc] counts up to letter case and surrounding
    whitespace.  Two values that, once stripped, are the same text up to
    the case of the letters A..Z get the same response, be it the list
    or the 400. *)
Theorem loc_value_up_to_case_and_whitespace (s1 s2 core1 core2 : string)
  (w : World) :
  trimmed s1 core1 -> trimmed s2 core2 -> same_text core1 core2 ->
  action_list (mkQuery None (Some s1) None) w
  = action_list (mkQuery None (Some s2) None) w.
Proof.
  intros T1 T2 H.
  rewrite (trimmed_unique s1 _ _ T1 (strip_trimmed s1)) in H.
  rewrite (trimmed_unique s2 _ _ T2 (strip_trimmed s2)) in H.
  apply lower_same_text in H.
  assert (Hnul : Text.has_nul s1 = Text.has_nul s2).
  { rewrite <- (has_nul_strip s1), <- (has_nul_strip s2).
    rewrite <- (has_nul_lower (Text.strip s1)), <- (has_nul_lower (Text.strip s2)).
    now rewrite H. }
  destruct (Text.has_nul s2) eqn:E2.
  - rewrite !action_list_invalid;
      unfold valid_query, filterset_errors; simpl;
      rewrite !has_nul_strip, ?Hnul, ?E2; easy.
  - rewrite (action_list_valid (mkQuery None (Some s1) None) "" (Text.strip s1) w);
      [| reflexivity | simpl; now rewrite has_nul_strip, Hnul].
    rewrite (action_list_valid (mkQuery None (Some s2) None) "" (Text.strip s2) w);
      [| reflexivity | simpl; now rewrite has_nul_strip, E2].
    do 3 f_equal. apply rows_where_ext. intros r.
    rewrite !admits_loc_icontains. unfold lookup_icontains. now rewrite H.
Qed.

Lemma loc_value_up_to_case_and_whitespace_witness :
  action_list (mkQuery None (Some "  ALEX") None) example_world
  = action_list (mkQuery None (Some "alex ") None) example_world.
Proof.
  apply (loc_value_up_to_case_and_whitespace "  ALEX" "alex " "ALEX" "alex"
           example_world).
  - exact (strip_trimmed "  ALEX").
  - exact (strip_trimmed "alex ").
  - apply lower_same_text. reflexivity.
Defined.

Lemma substring_ci_trans (a b c : string) :
  Text.substring_ci a b -> Text.substring_ci b c -> Text.substring_ci a c.
Proof.
  intros (pre & mid & post & -> & Hmid) (pre' & mid' & post' & -> & Hmid').
  rewrite !lower_app in Hmid'.
  destruct (lower_split _ _ _ Hmid') as (m1 & rest & -> & _ & Hrest).
  destruct (lower_split _ _ _ Hrest) as (m2 & m3 & -> & Hm2 & _).
  exists (pre' ++ m1)%string, m2, (m3 ++ post')%string. split.
  - now rewrite !append_assoc.
  - now rewrite Hm2.
Qed.

(** X14: a longer search text finds no more.  If the value of one
    [loc], without its surrounding whitespace, occurs up to letter case
    in that of another, every record listed for the longer value is
    listed for the shorter one. *)
Theorem loc_is_antitone (s1 s2 core1 core2 : string) (w : World) :
  Text.has_nul s1 = false -> Text.has_nul s2 = false ->
  trimmed s1 core1 -> trimmed s2 core2 ->
  occurs_ignoring_case core1 core2 ->
  exists results1 results2,
    fst (action_list (mkQuery None (Some s1) None) w)
    = Response_200_list results1
    /\ fst (action_list (mkQuery None (Some s2) None) w)
       = Response_200_list results2
    /\ incl results2 results1.
Proof.
  intros H1 H2 T1 T2 Hsub.
  rewrite (trimmed_unique s1 _ _ T1 (strip_trimmed s1)) in Hsub.
  rewrite (trimmed_unique s2 _ _ T2 (strip_trimmed s2)) in Hsub.
  apply lookup_icontains_occurs, lookup_icontains_spec in Hsub.
  do 2 eexists.
  rewrite (action_list_valid (mkQuery None (Some s1) None) "" (Text.strip s1) w);
    [| reflexivity | simpl; now rewrite has_nul_strip, H1].
  rewrite (action_list_valid (mkQuery None (Some s2) None) "" (Text.strip s2) w);
    [| reflexivity | simpl; now rewrite has_nul_strip, H2].
  split; [reflexivity | split; [reflexivity|]].
  intros d Hd. apply in_map_iff in Hd. destruct Hd as (r & <- & Hr).
  apply in_map. rewrite rows_where_In in *. destruct Hr as [Hin Hc].
  split; [exact Hin|]. simpl in *.
  rewrite !andb_true_r, andb_true_iff, admits_loc_icontains,
    lookup_icontains_spec in *.
  destruct Hc as [Hact Hr]. split; [exact Hact|].
  eauto using substring_ci_trans.
Qed.

Lemma loc_is_antitone_witness :
  exists results1 results2,
    fst (action_list (mkQuery None (Some "CAIRO") None) example_world)
    = Response_200_list results1
    /\ fst (action_list (mkQuery None (Some " new cairo") None) example_world)
       = Response_200_list results2
    /\ incl results2 results1.
Proof.
  apply (loc_is_antitone "CAIRO" " new cairo" "CAIRO" "new cairo"
           example_world).
  - reflexivity.
  - reflexivity.
  - exact (strip_trimmed "CAIRO").
  - exact (strip_trimmed " new cairo").
  - apply lookup_icontains_occurs. reflexivity.
Defined.

(** ** views.py: RVMViewSet, further *)

Lemma pk_unique (st : Store) (x r : RVM) :
  wf_store st -> In x (table st) -> In r (table st) -> id x = id r -> x = r.
Proof.
  intros [Hnd _] Hx Hr E.
  induction (table st) as [|y l IH]; [easy|].
  simpl in Hnd. inversion Hnd as [|? ? Hnotin Hnd']; subst.
  destruct Hr as [-> | Hr], Hx as [-> | Hx]; auto.
  - exfalso. apply Hnotin. rewrite <- E. now apply in_map.
  - exfalso. apply Hnotin. rewrite E. now apply in_map.
Qed.

(** X15: the filters of the query string also apply to the routes of one
    identifier.  For an active record and a valid filter form: if the
    filters admit the record, retrieve answers it and delete removes
    it; if they do not, retrieve, update and delete answer 404 and the
    database is left as it was. *)
Theorem detail_routes_apply_the_filters
  (run_validation : bool -> field -> option prim -> field_result)
  (q : query) (a b : string) (r : RVM) (w : World) :
  CharField_clean (q_location q) = Some a ->
  CharField_clean (q_loc q) = Some b ->
  wf_store (db w) -> In r (table (db w)) -> is_active r = true ->
  let admitted :=
    admits_location a r && admits_loc b r
    && admits_recent (q_recent q) (clock w (reads w)) r in
  (admitted = true ->
   fst (action_retrieve q (id r) w) = Response_200 (to_representation r)
   /\ fst (action_destroy q (id r) w) = Response_204)
  /\ (admitted = false ->
      forall partial body,
        fst (action_retrieve q (id r) w) = Response_404
        /\ fst (action_update run_validation partial q (id r) body w)
           = Response_404
        /\ fst (action_destroy q (id r) w) = Response_404
        /\ db (snd (action_destroy q (id r) w)) = db w).
Proof.
  intros Ha Hb Hwf Hin Hact admitted. split.
  - intros Hadm.
    rewrite action_retrieve_run, action_destroy_run.
    now rewrite (get_object_found q a b r w Ha Hb Hwf Hin Hact Hadm).
  - intros Hadm partial body.
    assert (Hget : get_object q (id r) w
                   = (inl Response_404,
                      match q_recent q with Some true => tick w | _ => w end)).
    { rewrite (get_object_valid q a b (id r) w Ha Hb). unfold rows_where.
      rewrite filter_none; [reflexivity|].
      intros x Hx. destruct (Z.eqb_spec (id x) (id r)) as [E|];
        [|apply andb_false_r].
      rewrite (pk_unique (db w) x r Hwf Hx Hin E).
      fold admitted. rewrite Hadm. now rewrite andb_false_r. }
    rewrite action_retrieve_run, action_update_run, action_destroy_run, Hget.
    simpl. repeat split. destruct (q_recent q) as [[|]|]; reflexivity.
Qed.

Lemma detail_routes_apply_the_filters_witness :
  fst (action_destroy (mkQuery None (Some "giza") None) 2 example_world)
  = Response_404
  /\ fst (action_retrieve (mkQuery None (Some "alex") None) 2 example_world)
     = Response_200
         (to_representation
            (mkRVM 2 "RVM-2" "Alexandria" true (Some 90000000000))).
Proof.
  split.
  - apply (proj2 (detail_routes_apply_the_filters required_validation
                    (mkQuery None (Some "giza") None) "" "giza"
                    (mkRVM 2 "RVM-2" "Alexandria" true (Some 90000000000))
                    example_world eq_refl eq_refl example_world_wf
                    (or_intror (or_introl eq_refl)) eq_refl)
             eq_refl false []).
  - apply (proj1 (detail_routes_apply_the_filters required_validation
                    (mkQuery None (Some "alex") None) "" "alex"
                    (mkRVM 2 "RVM-2" "Alexandria" true (Some 90000000000))
                    example_world eq_refl eq_refl example_world_wf
                    (or_intror (or_introl eq_refl)) eq_refl)
             eq_refl).
Defined.

Lemma clean_none_iff (raw : option string) :
  CharField_clean raw = None <-> ~ nul_free raw.
Proof.
  destruct raw as [v|]; simpl.
  - rewrite has_nul_strip. destruct (Text.has_nul v); split; easy.
  - split; [discriminate | intros H; now exfalso].
Qed.

Lemma clean_some_nul_free (raw : option string) (v : string) :
  CharField_clean raw = Some v -> nul_free raw.
Proof.
  destruct raw as [x|]; simpl; [|easy].
  rewrite has_nul_strip. now destruct (Text.has_nul x).
Qed.

(** X16: a filter form is invalid exactly when [location] or [loc] holds
    a null character, and then every route that filters (list,
    retrieve, update, delete) answers 400 with the errors of the form
    and does nothing else: neither the database nor the clock is
    touched. *)
Theorem invalid_filter_form_is_a_400
  (run_validation : bool -> field -> option prim -> field_result)
  (q : query) :
  (valid_query q <-> nul_free (q_location q) /\ nul_free (q_loc q))
  /\ (~ valid_query q ->
      filterset_errors q <> []
      /\ forall w pk partial body,
           action_list q w = (Response_400 (filterset_errors q), w)
           /\ action_retrieve q pk w = (Response_400 (filterset_errors q), w)
           /\ action_update run_validation partial q pk body w
              = (Response_400 (filterset_errors q), w)
           /\ action_destroy q pk w = (Response_400 (filterset_errors q), w)).
Proof.
  split.
  - unfold valid_query, filterset_errors.
    destruct (CharField_clean (q_location q)) as [a|] eqn:E1;
      destruct (CharField_clean (q_loc q)) as [b|] eqn:E2; simpl.
    + split; [intros _ | reflexivity].
      split; eauto using clean_some_nul_free.
    + split; [discriminate | intros [_ Hs]].
      exfalso. now apply (proj1 (clean_none_iff _) E2).
    + split; [discriminate | intros [Hl _]].
      exfalso. now apply (proj1 (clean_none_iff _) E1).
    + split; [discriminate | intros [Hl _]].
      exfalso. now apply (proj1 (clean_none_iff _) E1).
  - intros Hq. split; [exact Hq|]. intros w pk partial body.
    rewrite action_retrieve_run, action_update_run, action_destroy_run.
    now rewrite (action_list_invalid q w Hq), (get_object_invalid q pk w Hq).
Qed.

Lemma invalid_filter_form_is_a_400_witness :
  action_destroy (mkQuery (Some (String zero "")) None None) 2 example_world
  = (Response_400 [("location", "Null characters are not allowed.")],
     example_world).
Proof.
  assert (Hq : ~ valid_query (mkQuery (Some (String zero "")) None None))
    by (intros H; vm_compute in H; discriminate).
  destruct (proj2 (invalid_filter_form_is_a_400 required_validation
                     (mkQuery (Some (String zero "")) None None)) Hq)
    as [_ H].
  exact (proj2 (proj2 (proj2 (H example_world 2 false [])))).
Defined.

(** X17: a list response holds each record once: under the primary key
    no two of its records show the same [id]. *)
Theorem list_shows_each_record_once (q : query) (w : World)
  (results : list data) :
  wf_store (db w) ->
  fst (action_list q w) = Response_200_list results ->
  NoDup (map (fun d => get_value d "id") results).
Proof.
  intros [Hnd _] H. destruct (action_list_200 q w results H) as (cond & -> & _).
  rewrite map_map.
  assert (Hids : NoDup (map id (rows_where cond (db w)))).
  { apply (Permutation_NoDup (l := map id (filter cond (table (db w))))).
    - apply Permutation_map, order_by_perm.
    - now apply NoDup_map_filter. }
  rewrite (map_ext _ (fun x => Some (PInt (id x)))) by reflexivity.
  clear H. revert Hids.
  induction (rows_where cond (db w)) as [|r l IH]; cbn [map]; intros Hids;
    [constructor|].
  inversion Hids as [|? ? Hnotin Hnd']; subst. constructor; [|now apply IH].
  intros Hr. apply Hnotin. apply in_map_iff in Hr.
  destruct Hr as (x & E & Hx). injection E as E. rewrite <- E.
  now apply in_map.
Qed.

Lemma list_shows_each_record_once_witness :
  NoDup (map (fun d => get_value d "id")
           (map to_representation
              [mkRVM 2 "RVM-2" "Alexandria" true (Some 90000000000);
               mkRVM 4 "RVM-4" "New Cairo" true (Some 10000000000);
               mkRVM 1 "RVM-1" "Cairo" true None])).
Proof.
  apply (list_shows_each_record_once no_query example_world).
  - exact example_world_wf.
  - reflexivity.
Defined.

(** X18: retrieve and list agree.  Under the primary key, a retrieve
    without query parameters answers a record exactly when the list
    without query parameters holds that record with this [id]. *)
Theorem retrieve_agrees_with_list (w : World) (pk : Z) (d : data) :
  wf_store (db w) ->
  (fst (action_retrieve no_query pk w) = Response_200 d
   <-> exists results,
         fst (action_list no_query w) = Response_200_list results
         /\ In d results
         /\ get_value d "id" = Some (PInt pk)).
Proof.
  intros Hwf. rewrite action_retrieve_run. split.
  - destruct (get_object no_query pk w) as [[resp | o] w'] eqn:G; cbn [fst].
    + intros ->. now apply get_object_inl in G.
    + intros E. injection E as <-.
      destruct (get_object_inr _ _ _ _ _ G) as (Hin & Hact & Hid & _).
      eexists. split; [now rewrite (action_list_valid no_query "" "" w)|].
      split.
      * apply in_map, rows_where_In. split; [exact Hin|]. simpl.
        now rewrite Hact.
      * simpl. now rewrite Hid.
  - intros (results & E & Hd & Hid).
    rewrite (action_list_valid no_query "" "" w) in E by reflexivity.
    cbn [fst] in E. injection E as <-.
    apply in_map_iff in Hd. destruct Hd as (r & <- & Hr).
    apply rows_where_In in Hr. destruct Hr as [Hin Hc].
    simpl in Hc. rewrite !andb_true_r in Hc.
    simpl in Hid. injection Hid as <-.
    now rewrite (get_object_plain r w Hwf Hin Hc).
Qed.

Lemma retrieve_agrees_with_list_witness :
  exists results,
    fst (action_list no_query example_world) = Response_200_list results
    /\ In (to_representation
             (mkRVM 2 "RVM-2" "Alexandria" true (Some 90000000000))) results
    /\ get_value
         (to_representation
            (mkRVM 2 "RVM-2" "Alexandria" true (Some 90000000000))) "id"
       = Some (PInt 2).
Proof.
  apply (proj1 (retrieve_agrees_with_list example_world 2 _ example_world_wf)).
  reflexivity.
Defined.

Lemma filter_all {A : Type} (p : A -> bool) (l : list A) :
  (forall x, In x l -> p x = true) -> filter p l = l.
Proof.
  induction l as [|a l IH]; simpl; intros H; [reflexivity|].
  rewrite (H a) by auto. f_equal. apply IH. auto.
Qed.

(** X19: a create followed by the delete of the identifier it answered
    gives the table back as it was; only the sequence has advanced, so
    the identifier is not used again. *)
Theorem create_then_delete_restores_the_table
  (run_validation : bool -> field -> option prim -> field_result)
  (body : data) (w : World) :
  wf_store (db w) ->
  let pk := seq (db w) + 1 in
  let w1 := snd (action_create run_validation body w) in
  let w2 := snd (action_destroy no_query pk w1) in
  fst (action_destroy no_query pk w1) = Response_204
  /\ table (db w2) = table (db w)
  /\ seq (db w2) = seq (db w) + 1.
Proof.
  intros Hwf pk w1 w2. unfold w2, w1. rewrite action_create_run. cbn [snd].
  fold pk.
  set (w' := with_db (mkStore (table (db w) ++ [blank_rvm pk]) pk) w).
  assert (Hwf' : wf_store (db w')) by (apply wf_insert; exact Hwf).
  assert (Hin : In (blank_rvm pk) (table (db w')))
    by (simpl; apply in_or_app; right; now left).
  pose proof (get_object_plain (blank_rvm pk) w' Hwf' Hin eq_refl) as G.
  cbn [id blank_rvm] in G.
  rewrite action_destroy_run, G. cbn [fst snd]. split; [reflexivity|].
  split; [|reflexivity].
  simpl. rewrite filter_app. simpl. rewrite Z.eqb_refl. simpl.
  rewrite app_nil_r. apply filter_all.
  intros x Hx. destruct Hwf as [_ Hle]. rewrite Forall_forall in Hle.
  specialize (Hle x Hx). destruct (Z.eqb_spec (id x) pk); [|reflexivity].
  unfold pk in *. lia.
Qed.

Lemma create_then_delete_restores_the_table_witness :
  table (db (snd (action_destroy no_query 5
                    (snd (action_create required_validation [] example_world)))))
  = table (db example_world).
Proof.
  apply (create_then_delete_restores_the_table required_validation []
           example_world example_world_wf).
Defined.
